(** * EdgeBoost: the compiled tree predictor

    A shallow embedding of [EdgeBoost/predictor.py]: the flat node-record
    array, the two per-sample traversal loops, the batch drivers that fan
    the samples out over [multiprocessing.Process] children, and the
    [TreePredictor] class with its input validation.

    Conventions.
    - numpy's unsigned fields ([uint8], [uint32]) are [N]; array cells are
      tagged scalars, compared the way numpy compares them.
    - Floating-point values are kept abstract (a type [num] with its [<=]
      test): the predictor only stores, copies and compares them.
    - A [while True] loop is a [Fixpoint] on fuel; [OutOfFuel] stands for a
      loop that is still running.
    - Python exceptions are values of [exn]; a function that may raise or
      loop returns an [outcome]. *)

From Stdlib Require Import ZArith NArith Lia Bool.
From Stdlib Require Import DecimalString DecimalPos DecimalN.
From stdpp Require Import base list strings.

Open Scope string_scope.
Open Scope list_scope.

(** ** Exceptions and outcomes *)

Inductive exn : Type :=
| IndexError
| ValueError (msg : string).

Inductive outcome (A : Type) : Type :=
| Return (a : A)
| Raise (e : exn)
| OutOfFuel.

Arguments Return {A} a.
Arguments Raise {A} e.
Arguments OutOfFuel {A}.

Definition terminated {A : Type} (o : outcome A) : bool :=
  match o with
  | OutOfFuel => false
  | _ => true
  end.

Global Instance outcome_ret : MRet outcome := fun A a => Return a.

Global Instance outcome_bind : MBind outcome := fun A B f o =>
  match o with
  | Return a => f a
  | Raise e => Raise e
  | OutOfFuel => OutOfFuel
  end.

(** ** numpy element types *)

Inductive np_dtype : Type :=
| np_bool
| np_int8 | np_int16 | np_int32 | np_int64
| np_uint8 | np_uint16 | np_uint32 | np_uint64
| np_float16 | np_float32 | np_float64.

Definition np_dtype_eqb (a b : np_dtype) : bool :=
  match a, b with
  | np_bool, np_bool
  | np_int8, np_int8 | np_int16, np_int16
  | np_int32, np_int32 | np_int64, np_int64
  | np_uint8, np_uint8 | np_uint16, np_uint16
  | np_uint32, np_uint32 | np_uint64, np_uint64
  | np_float16, np_float16 | np_float32, np_float32
  | np_float64, np_float64 => true
  | _, _ => false
  end.

(** [str(n)] for a non-negative Python int. *)
Definition str (n : N) : string := NilZero.string_of_uint (N.to_uint n).

Section Predictor.

(** The floating-point carrier: its [<=] test (false on NaN, as in IEEE
    754), the conversion numpy applies to an integer operand of a mixed
    comparison, and the conversion numpy applies when a float64 is stored
    into an array of a given element type. *)
Variable num : Type.
Variable num_leb : num -> num -> bool.
Variable int_to_num : Z -> num.

(** ** Arrays *)

Inductive scalar : Type :=
| SInt (z : Z)
| SFloat (x : num).

Variable cast : np_dtype -> num -> scalar.

(** A two-dimensional [ndarray]: its element type and its rows. *)
Record ndarray : Type := mk_ndarray {
  dtype : np_dtype;
  rows : list (list scalar)
}.

Definition to_num (s : scalar) : num :=
  match s with
  | SInt z => int_to_num z
  | SFloat x => x
  end.

(** [a <= b] on numpy scalars: integer comparison between integers,
    floating-point comparison as soon as one side is a float. *)
Definition scalar_leb (a b : scalar) : bool :=
  match a, b with
  | SInt x, SInt y => (x <=? y)%Z
  | _, _ => num_leb (to_num a) (to_num b)
  end.

(** ** Node records ([PREDICTOR_RECORD_DTYPE]) *)

Record node_record : Type := mk_node {
  is_leaf : N;            (* uint8 *)
  value : list num;       (* '<prediction_dim>f8' *)
  count : N;              (* uint32 *)
  feature_idx : N;        (* uint32 *)
  bin_threshold : N;      (* uint8 *)
  threshold : num;        (* float32 *)
  left : N;               (* uint32 *)
  right : N;              (* uint32 *)
  gain : num;             (* float32 *)
  depth : N               (* uint32 *)
}.

(** Truth value of the [uint8] flag in [if node['is_leaf']]. *)
Definition truthy (n : N) : bool := negb (n =? 0)%N.

(** [a[i]] for an unsigned index: [IndexError] out of range. *)
Definition getitem {A : Type} (a : list A) (i : N) : outcome A :=
  match a !! N.to_nat i with
  | Some x => Return x
  | None => Raise IndexError
  end.

(** numpy's message when a vector of length [k] is assigned to a row of
    width [d] it cannot be broadcast to. *)
Definition broadcast_error (k d : nat) : string :=
  ("could not broadcast input array from shape (" ++ str (N.of_nat k)
   ++ ",) into shape (" ++ str (N.of_nat d) ++ ",)")%string.

(** [out[idx] = v] for a row index [idx] and a one-dimensional [v]: the
    values are converted to the element type of [out]; a vector of length
    one is broadcast over the row; any other length mismatch is numpy's
    broadcast error. *)

Definition assign_row (out : ndarray) (idx : nat) (v : list num)
  : outcome ndarray :=
  match rows out !! idx with
  | None => Raise IndexError
  | Some row =>
      let cells := map (cast (dtype out)) v in
      if (length cells =? length row)%nat then
        Return (mk_ndarray (dtype out) (<[idx := cells]> (rows out)))
      else
        match cells with
        | [c] =>
            Return (mk_ndarray (dtype out)
                      (<[idx := replicate (length row) c]> (rows out)))
        | _ => Raise (ValueError (broadcast_error (length v) (length row)))
        end
  end.

(** ** The per-sample traversal loops *)

(** The [while True] loop of [_predict_one_binned]; [node] is the loop
    variable, the result is the new content of [out]. *)
Fixpoint _predict_one_binned_loop (fuel : nat) (nodes : list node_record)
    (binned_data : list scalar) (out : ndarray) (idx : nat)
    (node : node_record) : outcome ndarray :=
  match fuel with
  | O => OutOfFuel
  | S fuel' =>
      if truthy (is_leaf node) then assign_row out idx (value node)
      else
        x ← getitem binned_data (feature_idx node);
        if scalar_leb x (SInt (Z.of_N (bin_threshold node))) then
          node' ← getitem nodes (left node);
          _predict_one_binned_loop fuel' nodes binned_data out idx node'
        else
          node' ← getitem nodes (right node);
          _predict_one_binned_loop fuel' nodes binned_data out idx node'
  end.

Definition _predict_one_binned (fuel : nat) (nodes : list node_record)
    (binned_data : list scalar) (out : ndarray) (idx : nat)
  : outcome ndarray :=
  node ← getitem nodes 0%N;
  _predict_one_binned_loop fuel nodes binned_data out idx node.

(** The [while True] loop of [_predict_one_from_numeric_data]. *)
Fixpoint _predict_one_from_numeric_data_loop (fuel : nat)
    (nodes : list node_record) (numeric_data : list scalar) (out : ndarray)
    (idx : nat) (node : node_record) : outcome ndarray :=
  match fuel with
  | O => OutOfFuel
  | S fuel' =>
      if truthy (is_leaf node) then assign_row out idx (value node)
      else
        x ← getitem numeric_data (feature_idx node);
        if scalar_leb x (SFloat (threshold node)) then
          node' ← getitem nodes (left node);
          _predict_one_from_numeric_data_loop
            fuel' nodes numeric_data out idx node'
        else
          node' ← getitem nodes (right node);
          _predict_one_from_numeric_data_loop
            fuel' nodes numeric_data out idx node'
  end.

Definition _predict_one_from_numeric_data (fuel : nat)
    (nodes : list node_record) (numeric_data : list scalar) (out : ndarray)
    (idx : nat) : outcome ndarray :=
  node ← getitem nodes 0%N;
  _predict_one_from_numeric_data_loop fuel nodes numeric_data out idx node.

(** ** Module state, the process world and its monad *)

(** One field of a structured dtype: a scalar type, or a sub-array given by
    its format string (['50f8']). *)
Inductive field_format : Type :=
| scalar_field (t : np_dtype)
| array_field (fmt : string).

Definition record_dtype : Type := list (string * field_format).

(** The layout built by [np.dtype([...])] around the format of [value]. *)
Definition make_record_dtype (out_type : string) : record_dtype :=
  [ ("is_leaf", scalar_field np_uint8);
    ("value", array_field out_type);
    ("count", scalar_field np_uint32);
    ("feature_idx", scalar_field np_uint32);
    ("bin_threshold", scalar_field np_uint8);
    ("threshold", scalar_field np_float32);
    ("left", scalar_field np_uint32);
    ("right", scalar_field np_uint32);
    ("gain", scalar_field np_float32);
    ("depth", scalar_field np_uint32) ].

(** What the parent process can observe and change:
    - the module global [PREDICTOR_RECORD_DTYPE];
    - the lines printed so far;
    - the memory [np.empty] hands out: the cell at row [i], column [j] of a
      fresh array is whatever the allocator left there;
    - the child processes started so far, each with the final content of
      its own copy of [out] (or the exception that ended it). *)
Record world : Type := mk_world {
  PREDICTOR_RECORD_DTYPE : record_dtype;
  stdout : list string;
  uninitialised : nat -> nat -> scalar;
  children : list (outcome ndarray)
}.

(** The module as imported: the layout with a 50-wide [value]. *)
Definition module_loaded (mem : nat -> nat -> scalar) : world :=
  mk_world (make_record_dtype "50f8") [] mem [].

Definition M (A : Type) : Type := world -> outcome A * world.

Definition ret_M {A : Type} (a : A) : M A := fun w => (Return a, w).

Definition bind_M {A B : Type} (c : M A) (k : A -> M B) : M B := fun w =>
  match c w with
  | (Return a, w') => k a w'
  | (Raise e, w') => (Raise e, w')
  | (OutOfFuel, w') => (OutOfFuel, w')
  end.

Definition raise_M {A : Type} (e : exn) : M A := fun w => (Raise e, w).

Notation "x <- c ;; k" := (bind_M c (fun x => k))
  (at level 100, c at next level, right associativity).
Notation "c ;;; k" := (bind_M c (fun _ => k))
  (at level 100, right associativity).

(** [for x in xs: body(x)] *)
Fixpoint for_each {A : Type} (xs : list A) (body : A -> M unit) : M unit :=
  match xs with
  | [] => ret_M tt
  | x :: xs' => body x ;;; for_each xs' body
  end.

Definition print (s : string) : M unit := fun w =>
  (Return tt,
   mk_world (PREDICTOR_RECORD_DTYPE w) (stdout w ++ [s])
            (uninitialised w) (children w)).

(** [np.empty((n, d), dtype=dt)]: a fresh array, not initialised. *)
Definition fresh_array (w : world) (n d : nat) (dt : np_dtype) : ndarray :=
  mk_ndarray dt (map (fun i => map (uninitialised w i) (seq 0 d)) (seq 0 n)).

Definition np_empty (n d : nat) (dt : np_dtype) : M ndarray := fun w =>
  (Return (fresh_array w n d dt), w).

(** ** [multiprocessing.Process]

    [Process(target=f, args=a)] only records the call. [start] runs
    that call in a child process: the child works on its own copy of every
    argument (copy-on-write pages after a fork, unpickled copies after a
    spawn), so what it stores into [out] stays in the child, and an
    exception ends the child alone. [join] waits for the child to exit: it
    returns nothing, and it does not return while the child is running. *)
Record Process : Type := mk_Process {
  target : nat -> outcome ndarray
}.

Definition Process_start (fuel : nat) (p : Process) : M unit := fun w =>
  (Return tt,
   mk_world (PREDICTOR_RECORD_DTYPE w) (stdout w) (uninitialised w)
            (children w ++ [target p fuel])).

Definition Process_join (fuel : nat) (p : Process) : M unit := fun w =>
  if terminated (target p fuel) then (Return tt, w) else (OutOfFuel, w).

(** ** The batch drivers

    Both take the parent's [out] and hand back what the parent's [out]
    holds when the function returns.  [prange] outside a jitted function is
    [range]; the parameters [thread] and [n_threads] of [_predict_binned]
    are never read and are left out. *)

Definition _predict_binned (fuel : nat) (nodes : list node_record)
    (binned_data : ndarray) (out : ndarray) : M ndarray :=
  let processes :=
    imap (fun i row =>
            mk_Process (fun fuel =>
              _predict_one_binned fuel nodes row out i))
         (rows binned_data) in
  for_each processes (Process_start fuel) ;;;
  for_each processes (Process_join fuel) ;;;
  ret_M out.

Definition _predict_from_numeric_data (fuel : nat) (nodes : list node_record)
    (numeric_data : ndarray) (out : ndarray) : M ndarray :=
  print "multiprocessing" ;;;
  for_each (seq 0 (length (rows numeric_data)))
    (fun i => print (str (N.of_nat i))) ;;;
  let processes :=
    imap (fun i row =>
            (i, mk_Process (fun fuel =>
                  _predict_one_from_numeric_data fuel nodes row out i)))
         (rows numeric_data) in
  for_each processes
    (fun ip => print (str (N.of_nat (fst ip))) ;;;
               Process_start fuel (snd ip)) ;;;
  for_each processes
    (fun ip => print (str (N.of_nat (fst ip))) ;;;
               Process_join fuel (snd ip)) ;;;
  ret_M out.

(** ** The [TreePredictor] class *)

Record TreePredictor : Type := mk_TreePredictor {
  prediction_dim : N;
  nodes : list node_record;
  has_numerical_thresholds : bool
}.

(** [__init__]; the defaults ([True], [1]) are for the caller to pass. *)
Definition TreePredictor_init (nodes : list node_record)
    (has_numerical_thresholds : bool) (prediction_dim : N)
  : M TreePredictor := fun w =>
  let self := mk_TreePredictor prediction_dim nodes has_numerical_thresholds in
  let out_type := (str prediction_dim ++ "f8")%string in
  (Return self,
   mk_world (make_record_dtype out_type) (stdout w) (uninitialised w)
            (children w)).

(** [int(self.nodes['is_leaf'].sum())]: numpy adds [uint8] values in a
    64-bit unsigned accumulator. *)
Definition get_n_leaf_nodes (self : TreePredictor) : Z :=
  Z.of_N (fold_left (fun acc n => ((acc + is_leaf n) mod 2 ^ 64)%N)
                    (nodes self) 0%N).

(** [int(self.nodes['depth'].max())]: the maximum of the [depth] column,
    over every record; numpy refuses the maximum of an empty array. *)
Definition empty_max_error : string :=
  "zero-size array to reduction operation maximum which has no identity".

Definition get_max_depth (self : TreePredictor) : outcome Z :=
  match nodes self with
  | [] => Raise (ValueError empty_max_error)
  | n :: ns =>
      Return (Z.of_N (fold_left (fun m n' => N.max m (depth n')) ns (depth n)))
  end.

Definition binned_dtype_error : string :=
  "binned_data dtype should be uint8".

Definition no_thresholds_error : string :=
  ("This predictor does not have numerical thresholds so it can"
   ++ "only predict pre-binned data.")%string.

Definition uint8_input_error : string :=
  ("X has uint8 dtype: use estimator.predict(X) if X is "
   ++ "pre-binned, or convert X to a float32 dtype to be treated "
   ++ "as numerical data")%string.

Definition predict_binned (fuel : nat) (self : TreePredictor)
    (binned_data : ndarray) (out : option ndarray) : M ndarray :=
  if negb (np_dtype_eqb (dtype binned_data) np_uint8) then
    raise_M (ValueError binned_dtype_error)
  else
    out <- match out with
           | None => np_empty (length (rows binned_data))
                              (N.to_nat (prediction_dim self)) np_float32
           | Some o => ret_M o
           end ;;
    _predict_binned fuel (nodes self) binned_data out.

Definition predict (fuel : nat) (self : TreePredictor) (X : ndarray)
  : M ndarray :=
  if negb (has_numerical_thresholds self) then
    raise_M (ValueError no_thresholds_error)
  else if np_dtype_eqb (dtype X) np_uint8 then
    raise_M (ValueError uint8_input_error)
  else
    out <- np_empty (length (rows X)) (N.to_nat (prediction_dim self))
                    np_float32 ;;
    _predict_from_numeric_data fuel (nodes self) X out.

(** ** The traversal as the specification words it

    "Start at node 0; while the current node is not a leaf, compare the
    sample's value at [feature_idx] against [bin_threshold] (binned path)
    or [threshold] (numeric path) with [<=] and move to [left] or [right]
    accordingly."  [reaches le nodes sample i leaf]: the walk that is at
    index [i] ends at the leaf record [leaf]. *)

Definition binned_le (x : scalar) (node : node_record) : bool :=
  scalar_leb x (SInt (Z.of_N (bin_threshold node))).

Definition numeric_le (x : scalar) (node : node_record) : bool :=
  scalar_leb x (SFloat (threshold node)).

Inductive reaches (le : scalar -> node_record -> bool)
    (nodes : list node_record) (sample : list scalar)
  : nat -> node_record -> Prop :=
| reaches_leaf i node :
    nodes !! i = Some node ->
    truthy (is_leaf node) = true ->
    reaches le nodes sample i node
| reaches_left i node x leaf :
    nodes !! i = Some node ->
    truthy (is_leaf node) = false ->
    sample !! N.to_nat (feature_idx node) = Some x ->
    le x node = true ->
    reaches le nodes sample (N.to_nat (left node)) leaf ->
    reaches le nodes sample i leaf
| reaches_right i node x leaf :
    nodes !! i = Some node ->
    truthy (is_leaf node) = false ->
    sample !! N.to_nat (feature_idx node) = Some x ->
    le x node = false ->
    reaches le nodes sample (N.to_nat (right node)) leaf ->
    reaches le nodes sample i leaf.

(** "On reaching a leaf, copy its value vector into the sample's output
    row", said of the contents of the arrays: [out'] is [out] except in row
    [idx], which now holds the values of [v] in the element type of [out]
    (one value repeated over the row when [v] has length one and the row
    another width, as numpy broadcasts it). *)
Definition row_copied (out : ndarray) (idx : nat) (v : list num)
    (out' : ndarray) : Prop :=
  dtype out' = dtype out /\
  length (rows out') = length (rows out) /\
  (forall j, j <> idx -> rows out' !! j = rows out !! j) /\
  exists row,
    rows out !! idx = Some row /\
    ((length v = length row /\
      rows out' !! idx = Some (map (cast (dtype out)) v))
     \/
     (length row <> 1%nat /\
      exists x, v = [x] /\
        rows out' !! idx
        = Some (replicate (length row) (cast (dtype out) x)))).

(** Both loops are one walk, up to the comparison: [walk] returns the leaf
    record at which the loop stops. *)
Fixpoint walk (le : scalar -> node_record -> bool) (fuel : nat)
    (nodes : list node_record) (sample : list scalar) (node : node_record)
  : outcome node_record :=
  match fuel with
  | O => OutOfFuel
  | S fuel' =>
      if truthy (is_leaf node) then Return node
      else
        x ← getitem sample (feature_idx node);
        node' ← getitem nodes (if le x node then left node else right node);
        walk le fuel' nodes sample node'
  end.

(** The fields the binned loop reads, and those the numeric loop reads. *)
Definition same_binned_route (a b : node_record) : Prop :=
  is_leaf a = is_leaf b /\ value a = value b /\
  feature_idx a = feature_idx b /\ bin_threshold a = bin_threshold b /\
  left a = left b /\ right a = right b.

Definition same_numeric_route (a b : node_record) : Prop :=
  is_leaf a = is_leaf b /\ value a = value b /\
  feature_idx a = feature_idx b /\ threshold a = threshold b /\
  left a = left b /\ right a = right b.

(** A sample that has a value for every feature the tree splits on. *)
Definition covers_features (nodes : list node_record) (sample : list scalar)
  : Prop :=
  forall node,
    node ∈ nodes -> truthy (is_leaf node) = false ->
    (N.to_nat (feature_idx node) < length sample)%nat.

(** Every leaf output has the width [d]. *)
Definition leaf_width (nodes : list node_record) (d : nat) : Prop :=
  forall node,
    node ∈ nodes -> truthy (is_leaf node) = true -> length (value node) = d.

(** ** Well-formed node arrays *)

(** The root exists, and the children of every internal node lie after it
    and inside the array. *)
Definition well_formed (nodes : list node_record) : Prop :=
  nodes <> [] /\
  forall i node,
    nodes !! i = Some node ->
    truthy (is_leaf node) = false ->
    (i < N.to_nat (left node) < length nodes)%nat /\
    (i < N.to_nat (right node) < length nodes)%nat.

Definition children_after (len i : nat) (node : node_record) : bool :=
  truthy (is_leaf node)
  || ((i <? N.to_nat (left node))%nat && (N.to_nat (left node) <? len)%nat
      && (i <? N.to_nat (right node))%nat
      && (N.to_nat (right node) <? len)%nat).

Definition well_formedb (nodes : list node_record) : bool :=
  negb (length nodes =? 0)%nat
  && forallb (fun b : bool => b) (imap (children_after (length nodes)) nodes).

(** Number of records whose [is_leaf] flag is set. *)
Definition count_leaves (nodes : list node_record) : nat :=
  length (filter (fun n => truthy (is_leaf n) = true) nodes).

(** ** The bin mapping table *)

(** Modelled from the spec: the Bin Mapping Table (the bin mapper is not
    part of the predictor module).  "Per feature, an ordered sequence of
    bin-edge thresholds (ascending)." *)
Definition bin_table : Type := list (list num).

(** Modelled from the spec: the Bin Mapper's [transform] for one value.
    "Transform assigns each raw value the index of the first edge it does
    not exceed; values beyond all edges go to the last bin." *)
Fixpoint bin_code (edges : list num) (x : num) : nat :=
  match edges with
  | [] => 0
  | e :: edges' => if num_leb x e then 0 else S (bin_code edges' x)
  end.

(** Modelled from the spec: the order of a feature's edges ("ascending"). *)
Fixpoint ascending (edges : list num) : bool :=
  match edges with
  | a :: (b :: _) as edges' => num_leb a b && ascending edges'
  | _ => true
  end.

(** [a < b] on floats, from [<=]. *)
Definition num_ltb (a b : num) : bool := num_leb a b && negb (num_leb b a).

(** Modelled from the spec: a raw value "falling strictly inside" bin [b]
    of the Bin Mapping Table.  [x] lies strictly between the edge that
    closes bin [b - 1] and the edge that closes bin [b]; bin [0] has no
    lower edge and the last bin (index [length edges]) no upper one. *)
Definition strictly_inside (edges : list num) (b : nat) (x : num) : bool :=
  match b with
  | O => true
  | S b' => match edges !! b' with
            | Some lo => num_ltb lo x
            | None => false
            end
  end
  && match edges !! b with
     | Some hi => num_ltb x hi
     | None => (b =? length edges)%nat
     end.

(** Modelled from the spec: "raw values falling strictly inside the same
    bin as a previously binned sample".  Every feature value of [raw] lies
    strictly inside the bin whose code [binned] holds for that feature. *)
Definition same_bins (table : bin_table) (raw binned : list scalar) : Prop :=
  length raw = length binned /\
  forall f x c,
    raw !! f = Some x ->
    binned !! f = Some c ->
    exists edges b,
      table !! f = Some edges /\ c = SInt (Z.of_nat b) /\
      strictly_inside edges b (to_num x) = true.

(** Modelled from the spec: threshold reconstruction (done by the grower,
    which is not part of the predictor module).  [threshold] is "the
    real-valued equivalent of [bin_threshold]": the table maps "a bin code
    back to an approximate numeric threshold", the edge that closes the
    bin.  The [threshold] field of the record is a [float32], so what a
    node holds is the edge as a [float32] stores it. *)
Definition thresholds_reconstructed (table : bin_table)
    (nodes : list node_record) : Prop :=
  forall node,
    node ∈ nodes ->
    truthy (is_leaf node) = false ->
    exists edges e,
      table !! N.to_nat (feature_idx node) = Some edges /\
      edges !! N.to_nat (bin_threshold node) = Some e /\
      threshold node = to_num (cast np_float32 e).

(** No value of [raw] lies between a bin edge a node splits at and the
    [float32] that edge is stored as: the value compares with the stored
    threshold as it does with the edge.  (So it is when the edge is a
    [float32] already.) *)
Definition rounding_keeps_side (table : bin_table)
    (nodes : list node_record) (raw : list scalar) : Prop :=
  forall node edges e x,
    node ∈ nodes ->
    truthy (is_leaf node) = false ->
    table !! N.to_nat (feature_idx node) = Some edges ->
    edges !! N.to_nat (bin_threshold node) = Some e ->
    raw !! N.to_nat (feature_idx node) = Some x ->
    num_leb (to_num x) (to_num (cast np_float32 e)) = num_leb (to_num x) e.

(** [<=] on floats is transitive (it is, NaN included: a true [<=] has no
    NaN operand). *)
Definition leb_transitive : Prop :=
  forall a b c, num_leb a b = true -> num_leb b c = true -> num_leb a c = true.

(** ** The tree grower

    The grower is not part of the predictor module; what follows is its
    design as the specification gives it (Tree Grower, flat node array,
    Node Record).  The numeric collaborators stay abstract: the Splitter
    applied to the histograms of a sample partition, the closed-form leaf
    output, and the bin-to-threshold lookup. *)

(** Modelled from the spec: the Splitter's answer, "the best (feature,
    bin, gain) triple". *)
Record split_info : Type := mk_split {
  split_feature : N;
  split_bin : N;
  split_gain : num
}.

Variable num_zero : num.
Variable find_best_split : list nat -> option split_info.
Variable leaf_output : list nat -> list num.
Variable numeric_threshold : N -> N -> num.

(** Growth parameters: the binned training matrix and the budgets. *)
Variable training_rows : list (list scalar).
Variable max_leaf_nodes : nat.
Variable max_depth : option N.
Variable min_samples_leaf : nat.
Variable output_width : N.

(** Modelled from the spec: a "splittable" node of the Tree Grower, as it
    waits in the priority structure: where its record is, which samples
    reached it, and the split found for it. *)
Record splittable : Type := mk_splittable {
  node_idx : nat;
  node_samples : list nat;
  node_depth : N;
  node_split : split_info
}.

(** Modelled from the spec: the Tree Grower's state, the arena of node
    records ("a contiguous growable array with child references stored as
    array indices"), the priority structure and the leaf count. *)
Record grower : Type := mk_grower {
  arena : list node_record;
  queue : list splittable;
  n_leaves : nat
}.

(** Modelled from the spec: the Node Record of a leaf, "its value computed
    as the optimal leaf output", [count] the "number of training samples
    that reached the node". *)
Definition leaf_record (samples : list nat) (d : N) : node_record :=
  mk_node 1 (leaf_output samples) (N.of_nat (length samples))
          0 0 num_zero 0 0 num_zero d.

(** Modelled from the spec: the depth part of the "leaf-count/depth
    budget". *)
Definition depth_exhausted (d : N) : bool :=
  match max_depth with
  | Some m => (m <=? d)%N
  | None => false
  end.

(** Modelled from the spec: the Tree Grower's evaluation of a "pending"
    node, [Some] split for "splittable", [None] for "leaf" ("no valid
    split, or budget reached").  "Nodes with fewer than
    [2 * min_samples_leaf] samples are never split." *)
Definition evaluate (samples : list nat) (d : N) : option split_info :=
  if depth_exhausted d then None
  else if (length samples <? 2 * min_samples_leaf)%nat then None
  else find_best_split samples.

(** Modelled from the spec: the Tree Grower pushing an evaluated child
    into the priority structure, if it is splittable. *)
Definition push (q : list splittable) (i : nat) (samples : list nat) (d : N)
  : list splittable :=
  match evaluate samples d with
  | Some s => q ++ [mk_splittable i samples d s]
  | None => q
  end.

(** Modelled from the spec: the Tree Grower's "pop the highest-gain
    node". *)
Fixpoint pop_best (q : list splittable)
  : option (splittable * list splittable) :=
  match q with
  | [] => None
  | e :: q' =>
      match pop_best q' with
      | None => Some (e, [])
      | Some (b, rest) =>
          if num_leb (split_gain (node_split b)) (split_gain (node_split e))
          then Some (e, q')
          else Some (b, e :: rest)
      end
  end.

(** Modelled from the spec: the Tree Grower's split rule on a training
    sample, left iff its bin code at the split feature is [<=] the split
    bin. *)
Definition goes_left (s : split_info) (i : nat) : bool :=
  match training_rows !! i with
  | Some row =>
      match row !! N.to_nat (split_feature s) with
      | Some x => scalar_leb x (SInt (Z.of_N (split_bin s)))
      | None => false
      end
  | None => false
  end.

(** Modelled from the spec: the Node Record of an internal node, [value]
    "zero-filled for internal nodes", [left] and [right] "indices into the
    same node sequence". *)
Definition internal_record (e : splittable) (l r : nat) : node_record :=
  let s := node_split e in
  mk_node 0 (replicate (N.to_nat output_width) num_zero)
          (N.of_nat (length (node_samples e)))
          (split_feature s) (split_bin s)
          (numeric_threshold (split_feature s) (split_bin s))
          (N.of_nat l) (N.of_nat r) (split_gain s) (node_depth e).

(** Modelled from the spec: the Tree Grower's "materialize its split
    (allocate two child Node Records, partition its sample indices by the
    split rule, compute each child's best split), and push the children
    back".  The two records are "appended strictly in creation order"; the
    record of [e] becomes internal and points at them. *)
Definition split_node (e : splittable) (rest : list splittable) (g : grower)
  : grower :=
  let l := length (arena g) in
  let r := S l in
  let s := node_split e in
  let d := (node_depth e + 1)%N in
  let samples_left := List.filter (goes_left s) (node_samples e) in
  let samples_right :=
    List.filter (fun i => negb (goes_left s i)) (node_samples e) in
  mk_grower
    (<[node_idx e := internal_record e l r]> (arena g)
       ++ [leaf_record samples_left d; leaf_record samples_right d])
    (push (push rest l samples_left d) r samples_right d)
    (S (n_leaves g)).

(** Modelled from the spec: the Tree Grower's loop.  "Growth terminates
    when the priority structure is empty or the tree has reached the
    configured maximum leaf count."  Every split adds one leaf, so
    [max_leaf_nodes] rounds are never used up (see [grow_loop_stops]). *)
Fixpoint grow_loop (budget : nat) (g : grower) : grower :=
  match budget with
  | O => g
  | S budget' =>
      if (max_leaf_nodes <=? n_leaves g)%nat then g
      else
        match pop_best (queue g) with
        | None => g
        | Some (e, rest) => grow_loop budget' (split_node e rest g)
        end
  end.

(** Modelled from the spec: the Tree Grower's initial state, the root
    record at index 0 holding every training sample. *)
Definition grow_start : grower :=
  let samples := seq 0 (length training_rows) in
  mk_grower [leaf_record samples 0] (push [] 0%nat samples 0%N) 1.

(** Modelled from the spec: the Tree Grower's result, "a finished tree as
    a flat node array". *)
Definition grow : list node_record :=
  arena (grow_loop max_leaf_nodes grow_start).

(** Modelled from the spec: a fitted Tree, the node array handed to the
    predictor with the Tree's metadata. *)
Definition fitted_tree (numeric : bool) : TreePredictor :=
  mk_TreePredictor output_width grow numeric.

(** * Properties *)

(** ** The loops and the walk *)

Lemma getitem_Return {A : Type} (a : list A) (i : N) (x : A) :
  getitem a i = Return x <-> a !! N.to_nat i = Some x.
Proof.
  unfold getitem. destruct (a !! N.to_nat i); split; congruence.
Qed.

Lemma bind_Return {A B : Type} (a : A) (k : A -> outcome B) :
  (Return a ≫= k) = k a.
Proof. reflexivity. Qed.

Lemma getitem_running {A : Type} (a : list A) (i : N) :
  getitem a i <> OutOfFuel.
Proof. unfold getitem. by destruct (a !! N.to_nat i). Qed.

Lemma binned_loop_walk fuel nodes data out idx node :
  _predict_one_binned_loop fuel nodes data out idx node =
  (leaf ← walk binned_le fuel nodes data node;
   assign_row out idx (value leaf)).
Proof.
  revert node. induction fuel as [|fuel IH]; intros node; simpl; [done|].
  destruct (truthy (is_leaf node)); [done|].
  destruct (getitem data (feature_idx node)) as [x| |]; simpl; [|done..].
  unfold binned_le.
  destruct (scalar_leb x _);
    (destruct (getitem nodes _) as [node'| |]; simpl; [apply IH|done..]).
Qed.

Lemma numeric_loop_walk fuel nodes data out idx node :
  _predict_one_from_numeric_data_loop fuel nodes data out idx node =
  (leaf ← walk numeric_le fuel nodes data node;
   assign_row out idx (value leaf)).
Proof.
  revert node. induction fuel as [|fuel IH]; intros node; simpl; [done|].
  destruct (truthy (is_leaf node)); [done|].
  destruct (getitem data (feature_idx node)) as [x| |]; simpl; [|done..].
  unfold numeric_le.
  destruct (scalar_leb x _);
    (destruct (getitem nodes _) as [node'| |]; simpl; [apply IH|done..]).
Qed.

Lemma walk_reaches le nodes sample fuel :
  forall i node leaf,
    nodes !! i = Some node ->
    walk le fuel nodes sample node = Return leaf ->
    reaches le nodes sample i leaf.
Proof.
  induction fuel as [|fuel IH]; intros i node leaf Hi; simpl; [done|].
  destruct (truthy (is_leaf node)) eqn:Hleaf.
  - intros [= <-]. by apply reaches_leaf.
  - destruct (getitem sample (feature_idx node)) as [x| |] eqn:Hx;
      simpl; [|done..].
    apply getitem_Return in Hx.
    destruct (le x node) eqn:Hle;
      (destruct (getitem nodes _) as [node'| |] eqn:Hn; simpl; [|done..];
       apply getitem_Return in Hn; intros Hw).
    + eapply reaches_left; eauto.
    + eapply reaches_right; eauto.
Qed.

Lemma reaches_lookup le nodes sample i leaf :
  reaches le nodes sample i leaf -> exists node, nodes !! i = Some node.
Proof. destruct 1; eauto. Qed.

(** One iteration in front of a walk that is known to end. *)
Ltac one_more_step Hr IH Hleaf Hx Hle :=
  let n' := fresh "n'" in
  let Hn' := fresh "Hn'" in
  let fuel := fresh "fuel" in
  let Hw := fresh "Hw" in
  destruct (reaches_lookup _ _ _ _ _ Hr) as [n' Hn'];
  destruct (IH n' Hn') as [fuel Hw]; exists (S fuel); simpl;
  rewrite Hleaf; apply getitem_Return in Hx; rewrite Hx; simpl;
  rewrite Hle; apply getitem_Return in Hn'; rewrite Hn'; exact Hw.

Lemma reaches_walk le nodes sample i leaf :
  reaches le nodes sample i leaf ->
  forall node,
    nodes !! i = Some node ->
    exists fuel, walk le fuel nodes sample node = Return leaf.
Proof.
  induction 1 as [i node Hi Hleaf
                 |i node x leaf Hi Hleaf Hx Hle Hr IH
                 |i node x leaf Hi Hleaf Hx Hle Hr IH];
    intros node0 Hi0; rewrite Hi in Hi0; injection Hi0 as <-.
  - exists 1%nat. simpl. by rewrite Hleaf.
  - one_more_step Hr IH Hleaf Hx Hle.
  - one_more_step Hr IH Hleaf Hx Hle.
Qed.

Lemma predict_one_returns le nodes sample out idx out' :
  (exists fuel,
     (node ← getitem nodes 0%N;
      leaf ← walk le fuel nodes sample node;
      assign_row out idx (value leaf)) = Return out') <->
  (exists leaf,
     reaches le nodes sample 0 leaf /\
     assign_row out idx (value leaf) = Return out').
Proof.
  split.
  - intros [fuel H].
    destruct (getitem nodes 0%N) as [node| |] eqn:Hn; simpl in H; [|done..].
    apply getitem_Return in Hn.
    destruct (walk le fuel nodes sample node) as [leaf| |] eqn:Hw;
      simpl in H; [|done..].
    exists leaf. split; [|done]. by eapply walk_reaches.
  - intros (leaf & Hr & Ha).
    destruct (reaches_lookup _ _ _ _ _ Hr) as [node Hn].
    destruct (reaches_walk _ _ _ _ _ Hr node Hn) as [fuel Hw].
    exists fuel. apply (getitem_Return nodes 0%N) in Hn.
    rewrite Hn. simpl. rewrite Hw. done.
Qed.

(** The row assignment of the loops does what [row_copied] says, and
    nothing else makes it return. *)
Lemma assign_row_copies out idx v out' :
  assign_row out idx v = Return out' <-> row_copied out idx v out'.
Proof.
  unfold assign_row, row_copied. split.
  - destruct (rows out !! idx) as [row|] eqn:Hrow; [|done].
    pose proof (lookup_lt_Some _ _ _ Hrow) as Hidx.
    rewrite length_map. destruct (Nat.eqb_spec (length v) (length row)) as [Hl|Hl].
    + intros [= <-]. simpl. rewrite length_insert.
      repeat split; try done.
      * intros j Hj. by apply list_lookup_insert_ne.
      * exists row. split; [done|]. left. split; [done|].
        by apply list_lookup_insert_eq.
    + destruct v as [|x [|y v]]; simpl; try done.
      intros [= <-]. simpl. rewrite length_insert.
      repeat split; try done.
      * intros j Hj. by apply list_lookup_insert_ne.
      * exists row. split; [done|]. right. split; [simpl in Hl; lia|].
        exists x. split; [done|]. by apply list_lookup_insert_eq.
  - intros (Hd & Hlen & Hother & row & Hrow & Hcell).
    rewrite Hrow, length_map.
    pose proof (lookup_lt_Some _ _ _ Hrow) as Hidx.
    assert (forall cells,
              rows out' !! idx = Some cells ->
              mk_ndarray (dtype out) (<[idx := cells]> (rows out)) = out')
      as Hsame.
    { intros cells Hcells. destruct out' as [d' r']. simpl in *. subst d'.
      f_equal. apply list_eq. intros j.
      destruct (decide (j = idx)) as [->|Hj].
      - by rewrite list_lookup_insert_eq, Hcells.
      - rewrite list_lookup_insert_ne by done. symmetry. by apply Hother. }
    destruct Hcell as [[Hl Hcells]|(Hl & x & -> & Hcells)].
    + rewrite Hl, Nat.eqb_refl. f_equal. by apply Hsame.
    + change (length [x]) with 1%nat.
      destruct (Nat.eqb_spec 1 (length row)) as [H1|H1]; [lia|].
      simpl. f_equal. by apply Hsame.
Qed.

(** C1. For every node array and every sample, each per-sample routine
    returns with [out'] exactly when the walk of the specification --
    start at node 0, at an internal node go to [left] if the sample's
    value at [feature_idx] is [<=] [bin_threshold] (binned path) or
    [threshold] (numeric path) and to [right] otherwise -- ends at a leaf
    and [out'] is [out] with that leaf's [value] vector in row [idx]: the
    row holds the vector's values (in the element type of [out]), every
    other row and the shape are as in [out]. *)
Theorem predict_one_follows_traversal nodes sample out idx out' :
  ((exists fuel, _predict_one_binned fuel nodes sample out idx = Return out')
   <->
   (exists leaf,
      reaches binned_le nodes sample 0 leaf /\
      row_copied out idx (value leaf) out'))
  /\
  ((exists fuel,
      _predict_one_from_numeric_data fuel nodes sample out idx = Return out')
   <->
   (exists leaf,
      reaches numeric_le nodes sample 0 leaf /\
      row_copied out idx (value leaf) out')).
Proof.
  assert (forall le,
    (exists leaf,
       reaches le nodes sample 0 leaf /\ row_copied out idx (value leaf) out')
    <->
    (exists leaf,
       reaches le nodes sample 0 leaf /\
       assign_row out idx (value leaf) = Return out')) as Hcopy.
  { intros le. split; intros (leaf & Hr & Hc); exists leaf; split; try done;
      by apply assign_row_copies. }
  split; rewrite Hcopy, <- predict_one_returns.
  - unfold _predict_one_binned.
    split; intros [fuel H]; exists fuel; revert H;
      destruct (getitem nodes 0%N); simpl; try done;
      by rewrite binned_loop_walk.
  - unfold _predict_one_from_numeric_data.
    split; intros [fuel H]; exists fuel; revert H;
      destruct (getitem nodes 0%N); simpl; try done;
      by rewrite numeric_loop_walk.
Qed.

(** ** Row assignment *)

Lemma assign_row_terminated out idx v :
  terminated (assign_row out idx v) = true.
Proof.
  unfold assign_row. destruct (rows out !! idx); [|done].
  destruct (_ =? _)%nat; [done|].
  by destruct (map _ v) as [|? [|? ?]].
Qed.

(** When the widths agree, the assignment stores the converted vector in
    row [idx] and touches nothing else. *)
Lemma assign_row_writes out idx v row :
  rows out !! idx = Some row ->
  length v = length row ->
  exists out',
    assign_row out idx v = Return out' /\
    dtype out' = dtype out /\
    rows out' !! idx = Some (map (cast (dtype out)) v) /\
    forall j, j <> idx -> rows out' !! j = rows out !! j.
Proof.
  intros Hrow Hlen. unfold assign_row. rewrite Hrow.
  rewrite length_map, Hlen, Nat.eqb_refl.
  eexists. split; [done|]. simpl. split; [done|]. split.
  - apply list_lookup_insert_eq. by eapply lookup_lt_Some.
  - intros j Hj. by apply list_lookup_insert_ne.
Qed.

Lemma assign_row_frame out idx v out' :
  assign_row out idx v = Return out' ->
  dtype out' = dtype out /\
  length (rows out') = length (rows out) /\
  forall j, j <> idx -> rows out' !! j = rows out !! j.
Proof.
  unfold assign_row. destruct (rows out !! idx) as [row|]; [|done].
  destruct (_ =? _)%nat.
  - intros [= <-]. simpl. rewrite length_insert. split; [done|].
    split; [done|]. intros j Hj. by apply list_lookup_insert_ne.
  - destruct (map _ v) as [|c [|? ?]]; try done.
    intros [= <-]. simpl. rewrite length_insert. split; [done|].
    split; [done|]. intros j Hj. by apply list_lookup_insert_ne.
Qed.

(** ** Termination on well-formed arrays *)

Lemma forallb_imap_lookup {A : Type} (f : nat -> A -> bool) (l : list A) :
  forallb (fun b : bool => b) (imap f l) = true ->
  forall i x, l !! i = Some x -> f i x = true.
Proof.
  intros H i x Hi. rewrite forallb_forall in H. apply H.
  apply list_elem_of_In, list_elem_of_lookup. exists i.
  by rewrite list_lookup_imap, Hi.
Qed.

Lemma well_formedb_correct nodes :
  well_formedb nodes = true -> well_formed nodes.
Proof.
  unfold well_formedb, well_formed.
  intros [Hne Hall]%andb_true_iff. split.
  - intros ->. done.
  - intros i node Hi Hleaf.
    pose proof (forallb_imap_lookup _ _ Hall i node Hi) as H.
    unfold children_after in H. rewrite Hleaf in H. simpl in H.
    repeat (apply andb_true_iff in H as [H ?]).
    repeat match goal with
           | H : (_ <? _)%nat = true |- _ => apply Nat.ltb_lt in H
           end.
    lia.
Qed.

Lemma walk_terminates le nodes sample :
  well_formed nodes ->
  forall fuel i node,
    nodes !! i = Some node ->
    (length nodes <= fuel + i)%nat ->
    terminated (walk le fuel nodes sample node) = true.
Proof.
  intros [_ Hwf]. induction fuel as [|fuel IH]; intros i node Hi Hfuel.
  - apply lookup_lt_Some in Hi. simpl in Hfuel. lia.
  - simpl. destruct (truthy (is_leaf node)) eqn:Hleaf; [done|].
    destruct (getitem sample (feature_idx node)) as [x| |] eqn:Hx;
      [|reflexivity|by apply getitem_running in Hx].
    destruct (Hwf i node Hi Hleaf) as [Hl Hr].
    set (c := if le x node then left node else right node).
    assert (i < N.to_nat c < length nodes)%nat as Hc
      by (subst c; destruct (le x node); lia).
    destruct (lookup_lt_is_Some_2 nodes (N.to_nat c)) as [node' Hn']; [lia|].
    pose proof Hn' as Hg. apply getitem_Return in Hg.
    rewrite bind_Return. fold c. rewrite Hg, bind_Return.
    apply (IH (N.to_nat c)); [done|lia].
Qed.

Lemma predict_one_terminates le nodes sample out idx fuel :
  well_formed nodes ->
  (length nodes <= fuel)%nat ->
  terminated (node ← getitem nodes 0%N;
              leaf ← walk le fuel nodes sample node;
              assign_row out idx (value leaf)) = true.
Proof.
  intros Hwf Hfuel.
  destruct (getitem nodes 0%N) as [node| |] eqn:Hn;
    [|reflexivity|by apply getitem_running in Hn].
  apply getitem_Return in Hn. rewrite bind_Return.
  pose proof (walk_terminates le nodes sample Hwf fuel 0 node Hn) as Hw.
  destruct (walk le fuel nodes sample node).
  - apply assign_row_terminated.
  - reflexivity.
  - apply Hw. lia.
Qed.

Lemma predict_one_binned_terminates nodes sample out idx fuel :
  well_formed nodes ->
  (length nodes <= fuel)%nat ->
  terminated (_predict_one_binned fuel nodes sample out idx) = true.
Proof.
  intros Hwf Hfuel.
  pose proof (predict_one_terminates binned_le nodes sample out idx fuel
                Hwf Hfuel) as H.
  unfold _predict_one_binned.
  destruct (getitem nodes 0%N) as [a| |] eqn:Hn;
    [|reflexivity|by apply getitem_running in Hn].
  rewrite bind_Return in *. by rewrite binned_loop_walk.
Qed.

Lemma predict_one_numeric_terminates nodes sample out idx fuel :
  well_formed nodes ->
  (length nodes <= fuel)%nat ->
  terminated (_predict_one_from_numeric_data fuel nodes sample out idx) = true.
Proof.
  intros Hwf Hfuel.
  pose proof (predict_one_terminates numeric_le nodes sample out idx fuel
                Hwf Hfuel) as H.
  unfold _predict_one_from_numeric_data.
  destruct (getitem nodes 0%N) as [a| |] eqn:Hn;
    [|reflexivity|by apply getitem_running in Hn].
  rewrite bind_Return in *. by rewrite numeric_loop_walk.
Qed.

(** C10. On a well-formed node array (a root at index 0, the children of
    every internal node after it and inside the array) both per-sample
    loops stop for every sample: as many iterations as the array has
    records are enough, whatever the sample, the output buffer and the row
    index are. *)
Theorem traversal_terminates nodes sample out idx fuel :
  well_formed nodes ->
  (length nodes <= fuel)%nat ->
  terminated (_predict_one_binned fuel nodes sample out idx) = true /\
  terminated (_predict_one_from_numeric_data fuel nodes sample out idx) = true.
Proof.
  intros Hwf Hfuel. split.
  - by apply predict_one_binned_terminates.
  - by apply predict_one_numeric_terminates.
Qed.

(** ** Binned and numeric paths *)

Lemma ascending_head :
  leb_transitive ->
  forall rest a0,
    ascending (a0 :: rest) = true ->
    forall j b, rest !! j = Some b -> num_leb a0 b = true.
Proof.
  intros Htrans. induction rest as [|b0 rest IH]; intros a0 Hasc j b Hj.
  - done.
  - simpl in Hasc. apply andb_true_iff in Hasc as [Hab Hasc].
    destruct j as [|j]; simpl in Hj.
    + by injection Hj as <-.
    + eapply Htrans; [exact Hab|]. by eapply IH.
Qed.

Lemma ascending_tail a0 rest :
  ascending (a0 :: rest) = true -> ascending rest = true.
Proof.
  destruct rest as [|b0 rest]; [done|]. simpl.
  by intros [_ H]%andb_true_iff.
Qed.

Lemma ascending_lookup :
  leb_transitive ->
  forall edges,
    ascending edges = true ->
    forall i j a b,
      (i < j)%nat -> edges !! i = Some a -> edges !! j = Some b ->
      num_leb a b = true.
Proof.
  intros Htrans. induction edges as [|a0 rest IH]; intros Hasc i j a b Hij Hi Hj.
  - done.
  - destruct j as [|j]; [lia|]. destruct i as [|i]; simpl in Hi, Hj.
    + injection Hi as <-. by eapply ascending_head.
    + eapply (IH (ascending_tail _ _ Hasc) i j); [lia|done..].
Qed.

(** A value strictly inside bin [b] is [<=] the edge that closes bin [bt]
    exactly when [b <= bt]. *)
Lemma inside_agrees edges b bt x t :
  leb_transitive ->
  ascending edges = true ->
  edges !! bt = Some t ->
  strictly_inside edges b x = true ->
  num_leb x t = (b <=? bt)%nat.
Proof.
  intros Htrans Hasc Ht [Hlo Hhi]%andb_true_iff.
  destruct (Nat.leb_spec b bt) as [Hle|Hgt].
  - destruct (edges !! b) as [hi|] eqn:Hb.
    + apply andb_true_iff in Hhi as [Hxh _].
      destruct (decide (b = bt)) as [->|Hne].
      * rewrite Ht in Hb. by injection Hb as ->.
      * eapply Htrans; [exact Hxh|].
        eapply (ascending_lookup Htrans edges Hasc b bt); [lia|done..].
    + apply lookup_ge_None in Hb. apply lookup_lt_Some in Ht. lia.
  - destruct b as [|b']; [lia|].
    destruct (edges !! b') as [lo|] eqn:Hb'; [|done].
    apply andb_true_iff in Hlo as [_ Hnot]. apply negb_true_iff in Hnot.
    destruct (num_leb x t) eqn:Hxt; [|done].
    rewrite <- Hnot. symmetry. destruct (decide (bt = b')) as [->|Hne].
    + rewrite Ht in Hb'. by injection Hb' as <-.
    + eapply Htrans; [exact Hxt|].
      eapply (ascending_lookup Htrans edges Hasc bt b'); [lia|done..].
Qed.

(** [strictly_inside] is about the bins of [transform]: a value strictly
    inside bin [b] is assigned the code [b]. *)
Lemma strictly_inside_bin_code :
  leb_transitive ->
  forall edges b x,
    ascending edges = true ->
    strictly_inside edges b x = true ->
    bin_code edges x = b.
Proof.
  intros Htrans. induction edges as [|e rest IH]; intros b x Hasc Hin.
  - destruct b as [|b]; [done|]. unfold strictly_inside in Hin.
    by rewrite lookup_nil in Hin.
  - simpl. apply andb_true_iff in Hin as [Hlo Hhi]. destruct b as [|b].
    + simpl in Hhi. by apply andb_true_iff in Hhi as [-> _].
    + destruct ((e :: rest) !! b) as [lo|] eqn:Hb; [|done].
      apply andb_true_iff in Hlo as [Hlox Hnot]. apply negb_true_iff in Hnot.
      assert (num_leb x e = false) as ->.
      { destruct (num_leb x e) eqn:Hxe; [|done]. rewrite <- Hnot.
        destruct b as [|b]; simpl in Hb.
        - by injection Hb as <-.
        - symmetry. eapply Htrans; [exact Hxe|].
          by eapply ascending_head. }
      f_equal. apply IH; [by eapply ascending_tail|].
      unfold strictly_inside. simpl in Hhi. apply andb_true_iff. split.
      * destruct b as [|b]; [done|]. simpl in Hb. rewrite Hb.
        unfold num_ltb. by rewrite Hlox, Hnot.
      * destruct (rest !! S b); [done|]. by simpl in Hhi.
Qed.

Lemma numeric_le_to_num x node :
  numeric_le x node = num_leb (to_num x) (threshold node).
Proof. by destruct x. Qed.

Lemma same_bins_step table nodes raw binned node :
  leb_transitive ->
  Forall (fun edges => ascending edges = true) table ->
  thresholds_reconstructed table nodes ->
  rounding_keeps_side table nodes raw ->
  same_bins table raw binned ->
  node ∈ nodes ->
  truthy (is_leaf node) = false ->
  (x ← getitem raw (feature_idx node); mret (numeric_le x node)) =
  (c ← getitem binned (feature_idx node); mret (binned_le c node)).
Proof.
  intros Htrans Hasc Hrec Hside [Hlen Hsame] Hin Hleaf.
  destruct (Hrec node Hin Hleaf) as (edges & e & Htab & Ht & Hthr).
  unfold getitem.
  destruct (raw !! N.to_nat (feature_idx node)) as [x|] eqn:Hx.
  - destruct (binned !! N.to_nat (feature_idx node)) as [c|] eqn:Hc.
    + destruct (Hsame _ x c Hx Hc) as (edges' & b & Htab' & -> & Hin').
      rewrite Htab in Htab'. injection Htab' as <-.
      rewrite !bind_Return. unfold mret, outcome_ret. f_equal.
      rewrite numeric_le_to_num, Hthr.
      rewrite (Hside node edges e x Hin Hleaf Htab Ht Hx).
      unfold binned_le, scalar_leb.
      rewrite Forall_forall in Hasc.
      assert (ascending edges = true) as Hasc'
        by (apply Hasc; by eapply list_elem_of_lookup_2).
      rewrite (inside_agrees edges b _ _ _ Htrans Hasc' Ht Hin').
      destruct (Nat.leb_spec b (N.to_nat (bin_threshold node)));
        symmetry; [apply Z.leb_le|apply Z.leb_gt]; lia.
    + apply lookup_lt_Some in Hx. apply lookup_ge_None in Hc. lia.
  - destruct (binned !! N.to_nat (feature_idx node)) as [c|] eqn:Hc; [|done].
    apply lookup_ge_None in Hx. apply lookup_lt_Some in Hc. lia.
Qed.

Lemma walk_test le fuel nodes sample node :
  walk le (S fuel) nodes sample node =
  if truthy (is_leaf node) then Return node
  else
    go ← (x ← getitem sample (feature_idx node); mret (le x node));
    node' ← getitem nodes (if go : bool then left node else right node);
    walk le fuel nodes sample node'.
Proof.
  simpl. destruct (truthy (is_leaf node)); [done|].
  by destruct (getitem sample (feature_idx node)).
Qed.

Lemma same_bins_walk table nodes raw binned :
  leb_transitive ->
  Forall (fun edges => ascending edges = true) table ->
  thresholds_reconstructed table nodes ->
  rounding_keeps_side table nodes raw ->
  same_bins table raw binned ->
  forall fuel node,
    node ∈ nodes ->
    walk numeric_le fuel nodes raw node = walk binned_le fuel nodes binned node.
Proof.
  intros Htrans Hasc Hrec Hside Hsame.
  induction fuel as [|fuel IH]; intros node Hin; [done|].
  rewrite !walk_test. destruct (truthy (is_leaf node)) eqn:Hleaf; [done|].
  rewrite (same_bins_step table nodes raw binned node) by done.
  destruct (c ← getitem binned (feature_idx node); mret (binned_le c node))
    as [go| |]; [|done..].
  rewrite !bind_Return.
  destruct (getitem nodes (if go then left node else right node))
    as [node'| |] eqn:Hn; [|done..].
  rewrite !bind_Return. apply IH.
  apply getitem_Return in Hn. by eapply list_elem_of_lookup_2.
Qed.

(** C7 (as amended). With the numeric threshold of every internal node
    the [float32] of the edge of its bin threshold (thresholds
    reconstructed from an ascending bin table), a raw sample whose feature
    values lie strictly inside the bins coded by a binned sample, none of
    them between an edge and the [float32] stored for it, is sent by the
    numeric routine exactly where the binned routine sends the binned
    sample: the two walks end at the same leaf, and the two routines have
    the same outcome for every amount of fuel, output buffer and row. *)
Theorem numeric_path_agrees_with_binned_path table nodes raw binned :
  leb_transitive ->
  Forall (fun edges => ascending edges = true) table ->
  thresholds_reconstructed table nodes ->
  rounding_keeps_side table nodes raw ->
  same_bins table raw binned ->
  (forall leaf,
     reaches numeric_le nodes raw 0 leaf <->
     reaches binned_le nodes binned 0 leaf) /\
  (forall fuel out idx,
     _predict_one_from_numeric_data fuel nodes raw out idx =
     _predict_one_binned fuel nodes binned out idx).
Proof.
  intros Htrans Hasc Hrec Hside Hsame.
  pose proof (same_bins_walk table nodes raw binned Htrans Hasc Hrec Hside
                Hsame) as Hwalk.
  split.
  - intros leaf. split; intros Hr;
      destruct (reaches_lookup _ _ _ _ _ Hr) as [node Hn];
      destruct (reaches_walk _ _ _ _ _ Hr node Hn) as [fuel Hw];
      eapply walk_reaches; try exact Hn;
      [rewrite <- Hwalk|rewrite Hwalk]; try exact Hw;
      by eapply list_elem_of_lookup_2.
  - intros fuel out idx.
    unfold _predict_one_from_numeric_data, _predict_one_binned.
    destruct (getitem nodes 0%N) as [node| |] eqn:Hn; [|done..].
    rewrite !bind_Return, numeric_loop_walk, binned_loop_walk.
    rewrite Hwalk; [done|].
    apply getitem_Return in Hn. by eapply list_elem_of_lookup_2.
Qed.

(** ** The parent process *)

Lemma np_dtype_eqb_eq a b : np_dtype_eqb a b = true <-> a = b.
Proof. destruct a, b; simpl; split; congruence. Qed.

(** A parent computation that raises nothing. *)
Definition no_raise {A : Type} (c : M A) : Prop :=
  forall w e, fst (c w) <> Raise e.

Lemma bind_M_Return_inv {A B : Type} (c : M A) (k : A -> M B) w b w'' :
  bind_M c k w = (Return b, w'') ->
  exists a w', c w = (Return a, w') /\ k a w' = (Return b, w'').
Proof.
  unfold bind_M. destruct (c w) as [[a| |] w']; [eauto|done..].
Qed.

Lemma no_raise_bind {A B : Type} (c : M A) (k : A -> M B) :
  no_raise c -> (forall a, no_raise (k a)) -> no_raise (bind_M c k).
Proof.
  intros Hc Hk w e. unfold bind_M. specialize (Hc w).
  destruct (c w) as [[a| |] w']; simpl in *.
  - apply Hk.
  - by destruct (Hc e0).
  - done.
Qed.

Lemma no_raise_ret {A : Type} (a : A) : no_raise (ret_M a).
Proof. by intros w e. Qed.

Lemma no_raise_for_each {A : Type} (xs : list A) (body : A -> M unit) :
  (forall x, no_raise (body x)) -> no_raise (for_each xs body).
Proof.
  intros Hb. induction xs as [|x xs IH]; simpl.
  - apply no_raise_ret.
  - apply no_raise_bind; [apply Hb|done].
Qed.

Lemma no_raise_print s : no_raise (print s).
Proof. by intros w e. Qed.

Lemma no_raise_start fuel p : no_raise (Process_start fuel p).
Proof. by intros w e. Qed.

Lemma no_raise_join fuel p : no_raise (Process_join fuel p).
Proof.
  intros w e. unfold Process_join. by destruct (terminated _).
Qed.

Lemma no_raise_np_empty n d dt : no_raise (np_empty n d dt).
Proof. by intros w e. Qed.

Create HintDb no_raise.

#[local] Hint Resolve no_raise_ret no_raise_print no_raise_start
  no_raise_join no_raise_np_empty : no_raise.
#[local] Hint Extern 2 (no_raise (bind_M _ _)) =>
  apply no_raise_bind; [|intros ?] : no_raise.
#[local] Hint Extern 2 (no_raise (for_each _ _)) =>
  apply no_raise_for_each; intros ? : no_raise.

Lemma no_raise_predict_binned_driver fuel nodes binned_data out :
  no_raise (_predict_binned fuel nodes binned_data out).
Proof. unfold _predict_binned. auto 10 with no_raise. Qed.

Lemma no_raise_predict_numeric_driver fuel nodes numeric_data out :
  no_raise (_predict_from_numeric_data fuel nodes numeric_data out).
Proof. unfold _predict_from_numeric_data. auto 12 with no_raise. Qed.

(** Starting the children changes nothing in the parent but the list of
    children; joining them changes nothing at all. *)
Lemma for_each_start fuel ps w :
  for_each ps (Process_start fuel) w =
  (Return tt,
   mk_world (PREDICTOR_RECORD_DTYPE w) (stdout w) (uninitialised w)
            (children w ++ map (fun p => target p fuel) ps)).
Proof.
  revert w. induction ps as [|p ps IH]; intros w; simpl.
  - destruct w. by rewrite app_nil_r.
  - unfold bind_M, Process_start at 1. rewrite IH. simpl.
    by rewrite <- app_assoc.
Qed.

Lemma for_each_join fuel ps w :
  for_each ps (Process_join fuel) w =
  (if forallb (fun p => terminated (target p fuel)) ps
   then Return tt else OutOfFuel, w).
Proof.
  induction ps as [|p ps IH]; simpl; [done|].
  unfold bind_M, Process_join at 1.
  destruct (terminated (target p fuel)); simpl; [|done]. by rewrite IH.
Qed.

(** The whole of [_predict_binned]: every sample gets a child that runs
    [_predict_one_binned] on a copy of [out]; the parent returns its own
    [out] once all children have exited. *)
Lemma predict_binned_driver_outcome fuel nodes binned_data out w :
  let kids :=
    imap (fun i row => _predict_one_binned fuel nodes row out i)
         (rows binned_data) in
  _predict_binned fuel nodes binned_data out w =
  (if forallb terminated kids then Return out else OutOfFuel,
   mk_world (PREDICTOR_RECORD_DTYPE w) (stdout w) (uninitialised w)
            (children w ++ kids)).
Proof.
  intros kids. unfold _predict_binned, bind_M.
  rewrite for_each_start, for_each_join. simpl.
  set (ps := imap _ (rows binned_data)).
  assert (map (fun p => target p fuel) ps = kids) as Hkids.
  { subst ps kids. generalize (rows binned_data) as rs.
    assert (forall (rs : list (list scalar)) (f : nat -> nat),
      map (fun p => target p fuel)
          (imap (fun i row =>
                   mk_Process (fun fuel =>
                     _predict_one_binned fuel nodes row out (f i))) rs)
      = imap (fun i row => _predict_one_binned fuel nodes row out (f i)) rs)
      as Hgen.
    { induction rs as [|r rs IH]; intros f; simpl; [done|].
      f_equal. apply (IH (fun i => f (S i))). }
    intros rs. apply (Hgen rs (fun i => i)). }
  rewrite Hkids.
  assert (forallb (fun p => terminated (target p fuel)) ps
          = forallb terminated kids) as ->.
  { rewrite <- Hkids. clear. induction ps as [|p ps IH]; simpl; [done|].
    by rewrite IH. }
  by destruct (forallb terminated kids).
Qed.

(** The drivers hand back the buffer they were given: no statement of the
    parent stores into it. *)
Lemma predict_binned_driver_returns fuel nodes binned_data out w o w' :
  _predict_binned fuel nodes binned_data out w = (Return o, w') -> o = out.
Proof.
  unfold _predict_binned. intros H.
  apply bind_M_Return_inv in H as (? & ? & _ & H).
  apply bind_M_Return_inv in H as (? & ? & _ & H).
  unfold ret_M in H. congruence.
Qed.

Lemma predict_numeric_driver_returns fuel nodes numeric_data out w o w' :
  _predict_from_numeric_data fuel nodes numeric_data out w = (Return o, w') ->
  o = out.
Proof.
  unfold _predict_from_numeric_data. intros H.
  do 4 apply bind_M_Return_inv in H as (? & ? & _ & H).
  unfold ret_M in H. congruence.
Qed.

(** What [predict_binned] and [predict] return is the array [np.empty]
    handed out, cell for cell. *)
Lemma predict_binned_returns_fresh fuel self binned_data w o w' :
  predict_binned fuel self binned_data None w = (Return o, w') ->
  o = fresh_array w (length (rows binned_data))
                  (N.to_nat (prediction_dim self)) np_float32.
Proof.
  unfold predict_binned. destruct (negb _); [done|].
  intros H. apply bind_M_Return_inv in H as (a & w1 & Ha & H).
  apply predict_binned_driver_returns in H.
  unfold np_empty in Ha. congruence.
Qed.

Lemma predict_returns_fresh fuel self X w o w' :
  predict fuel self X w = (Return o, w') ->
  o = fresh_array w (length (rows X))
                  (N.to_nat (prediction_dim self)) np_float32.
Proof.
  unfold predict. destruct (negb _); [done|].
  destruct (np_dtype_eqb _ _); [done|].
  intros H. apply bind_M_Return_inv in H as (a & w1 & Ha & H).
  apply predict_numeric_driver_returns in H.
  unfold np_empty in Ha. congruence.
Qed.

(** On a well-formed tree [predict_binned] does return, and what it
    returns is the array as [np.empty] made it, whatever the tree and the
    samples are: the rows the children computed stay with the children. *)
Lemma predict_binned_on_well_formed fuel self binned_data w :
  well_formed (nodes self) ->
  (length (nodes self) <= fuel)%nat ->
  dtype binned_data = np_uint8 ->
  let fresh := fresh_array w (length (rows binned_data))
                 (N.to_nat (prediction_dim self)) np_float32 in
  predict_binned fuel self binned_data None w =
  (Return fresh,
   mk_world (PREDICTOR_RECORD_DTYPE w) (stdout w) (uninitialised w)
     (children w
      ++ imap (fun i row => _predict_one_binned fuel (nodes self) row fresh i)
              (rows binned_data))).
Proof.
  intros Hwf Hfuel Hd fresh. unfold predict_binned.
  apply np_dtype_eqb_eq in Hd. rewrite Hd. simpl.
  unfold bind_M, np_empty. fold fresh.
  rewrite predict_binned_driver_outcome.
  replace (forallb terminated _) with true; [done|].
  symmetry. apply forallb_forall. intros o Ho.
  apply list_elem_of_In, list_elem_of_lookup in Ho as [i Hi].
  rewrite list_lookup_imap in Hi.
  destruct (rows binned_data !! i) as [row|]; [|done].
  injection Hi as <-. by apply predict_one_binned_terminates.
Qed.

(** C3. [predict_binned] raises [ValueError] exactly when the element type
    of its input is not [uint8]; it then raises before anything else
    happens (the world is as it was: no output allocated or written, no
    child started), and on [uint8] input the parent raises nothing. *)
Theorem predict_binned_checks_dtype fuel self binned_data out w :
  (dtype binned_data <> np_uint8 <->
   predict_binned fuel self binned_data out w
   = (Raise (ValueError binned_dtype_error), w)) /\
  (dtype binned_data = np_uint8 <->
   forall e, fst (predict_binned fuel self binned_data out w) <> Raise e).
Proof.
  unfold predict_binned.
  destruct (np_dtype_eqb (dtype binned_data) np_uint8) eqn:Hd; simpl.
  - apply np_dtype_eqb_eq in Hd.
    assert (forall e,
      fst ((out0 <- match out with
                     | Some o => ret_M o
                     | None => np_empty (length (rows binned_data))
                                 (N.to_nat (prediction_dim self)) np_float32
                     end ;;
            _predict_binned fuel (nodes self) binned_data out0) w)
      <> Raise e) as Hno.
    { apply no_raise_bind.
      - destruct out; [apply no_raise_ret|apply no_raise_np_empty].
      - intros a. apply no_raise_predict_binned_driver. }
    split; split; try done.
    intros H. specialize (Hno (ValueError binned_dtype_error)).
    rewrite H in Hno. done.
  - assert (dtype binned_data <> np_uint8) as Hne
      by (intros H%np_dtype_eqb_eq; congruence).
    split; split; try done.
    intros H. by destruct (H (ValueError binned_dtype_error)).
Qed.

(** C4. [predict] raises a [ValueError] exactly when the predictor has no
    numerical thresholds or the input has element type [uint8]; whenever
    it raises, it does so before anything else happens (the world is as it
    was: nothing printed, no output allocated, no child started). *)
Theorem predict_validates_input fuel self X w :
  ((exists msg, fst (predict fuel self X w) = Raise (ValueError msg)) <->
   (has_numerical_thresholds self = false \/ dtype X = np_uint8)) /\
  (forall e, fst (predict fuel self X w) = Raise e ->
             snd (predict fuel self X w) = w).
Proof.
  unfold predict.
  destruct (has_numerical_thresholds self) eqn:Hthr; simpl.
  - destruct (np_dtype_eqb (dtype X) np_uint8) eqn:Hd; simpl.
    + apply np_dtype_eqb_eq in Hd. split; [|done]. split; eauto.
    + assert (dtype X <> np_uint8) as Hne
        by (intros H%np_dtype_eqb_eq; congruence).
      assert (forall e,
        fst ((out <- np_empty (length (rows X))
                       (N.to_nat (prediction_dim self)) np_float32 ;;
              _predict_from_numeric_data fuel (nodes self) X out) w)
        <> Raise e) as Hno.
      { apply no_raise_bind; [apply no_raise_np_empty|].
        intros a. apply no_raise_predict_numeric_driver. }
      split.
      * split; [intros [msg H]; by destruct (Hno _ H)|intros [?|?]; done].
      * intros e H. by destruct (Hno _ H).
  - split; [|done]. split; eauto.
Qed.

Lemma fresh_array_shape w n d dt :
  dtype (fresh_array w n d dt) = dt /\
  length (rows (fresh_array w n d dt)) = n /\
  Forall (fun row => length row = d) (rows (fresh_array w n d dt)).
Proof.
  unfold fresh_array. simpl. split; [done|]. split.
  - by rewrite length_map, length_seq.
  - apply Forall_forall. intros row (i & -> & _)%list_elem_of_fmap.
    by rewrite length_map, length_seq.
Qed.

(** C5 (as amended). [TreePredictor.__init__] binds [prediction_dim],
    [nodes] and [has_numerical_thresholds] to the new instance and rebinds
    the module global [PREDICTOR_RECORD_DTYPE] to the layout whose [value]
    field has the format [str(prediction_dim) + 'f8']; nothing else of the
    world changes.  After two constructions each instance holds its own
    [prediction_dim], the global holds the layout of the second, and the
    rows [predict] and [predict_binned] allocate for the first instance
    still have the first instance's width. *)
Theorem init_binds_prediction_dim nodes1 thr1 dim1 nodes2 thr2 dim2 w :
  exists w1 w2,
    TreePredictor_init nodes1 thr1 dim1 w
    = (Return (mk_TreePredictor dim1 nodes1 thr1), w1) /\
    TreePredictor_init nodes2 thr2 dim2 w1
    = (Return (mk_TreePredictor dim2 nodes2 thr2), w2) /\
    PREDICTOR_RECORD_DTYPE w1 = make_record_dtype (str dim1 ++ "f8")%string /\
    PREDICTOR_RECORD_DTYPE w2 = make_record_dtype (str dim2 ++ "f8")%string /\
    stdout w2 = stdout w /\
    uninitialised w2 = uninitialised w /\
    children w2 = children w /\
    forall fuel X o w3,
      (predict fuel (mk_TreePredictor dim1 nodes1 thr1) X w2 = (Return o, w3)
       \/ predict_binned fuel (mk_TreePredictor dim1 nodes1 thr1) X None w2
          = (Return o, w3)) ->
      length (rows o) = length (rows X) /\
      Forall (fun row => length row = N.to_nat dim1) (rows o).
Proof.
  eexists _, _. repeat (split; [reflexivity|]).
  intros fuel X o w3 [H|H];
    [apply predict_returns_fresh in H as ->
    |apply predict_binned_returns_fresh in H as ->];
    apply fresh_array_shape.
Qed.

(** ** The grower's arena *)

Lemma truthy_false n : truthy n = false <-> n = 0%N.
Proof.
  unfold truthy. rewrite negb_false_iff. apply N.eqb_eq.
Qed.

Lemma count_leaves_cons n nodes :
  count_leaves (n :: nodes) =
  ((if truthy (is_leaf n) then 1 else 0) + count_leaves nodes)%nat.
Proof.
  unfold count_leaves. rewrite filter_cons.
  destruct (decide (truthy (is_leaf n) = true)) as [->|Hn]; [done|].
  by apply not_true_is_false in Hn as ->.
Qed.

Lemma count_leaves_app xs ys :
  count_leaves (xs ++ ys) = (count_leaves xs + count_leaves ys)%nat.
Proof.
  unfold count_leaves. by rewrite filter_app, length_app.
Qed.

Lemma count_leaves_insert nodes i n m :
  nodes !! i = Some n ->
  truthy (is_leaf n) = true ->
  truthy (is_leaf m) = false ->
  S (count_leaves (<[i := m]> nodes)) = count_leaves nodes.
Proof.
  revert i. induction nodes as [|x xs IH]; intros i Hi Hn Hm; [done|].
  destruct i as [|i]; simpl in *.
  - injection Hi as ->. by rewrite !count_leaves_cons, Hn, Hm.
  - rewrite !count_leaves_cons, <- (IH i Hi Hn Hm). lia.
Qed.

Lemma pop_best_perm q e rest :
  pop_best q = Some (e, rest) -> q ≡ₚ e :: rest.
Proof.
  revert e rest. induction q as [|x q IH]; intros e rest; simpl; [done|].
  destruct (pop_best q) as [[b rest']|] eqn:Hq.
  - specialize (IH b rest' eq_refl).
    destruct (num_leb _ _); intros [= <- <-]; [done|].
    rewrite IH. apply Permutation_swap.
  - intros [= <- <-]. destruct q as [|y q]; [done|].
    simpl in Hq. by destruct (pop_best q) as [[? ?]|]; [destruct (num_leb _ _)|].
Qed.

Lemma elem_of_push q i samples d e :
  e ∈ push q i samples d -> e ∈ q \/ node_idx e = i.
Proof.
  unfold push. destruct (evaluate samples d); [|by left].
  intros [? | ->%list_elem_of_singleton]%elem_of_app; [by left|by right].
Qed.

Lemma push_idx q i samples d :
  map node_idx (push q i samples d) = map node_idx q \/
  map node_idx (push q i samples d) = map node_idx q ++ [i].
Proof.
  unfold push. destruct (evaluate samples d); [right|by left].
  by rewrite map_app.
Qed.

(** The invariant of the growth loop. *)
Record grower_inv (g : grower) : Prop := mk_grower_inv {
  inv_root : exists root, arena g !! 0%nat = Some root /\ depth root = 0%N;
  inv_flags : forall i n,
    arena g !! i = Some n -> is_leaf n = 1%N \/ is_leaf n = 0%N;
  inv_children : forall i n,
    arena g !! i = Some n -> is_leaf n = 0%N ->
    (i < N.to_nat (left n) < length (arena g))%nat /\
    (i < N.to_nat (right n) < length (arena g))%nat;
  inv_queue : forall e,
    e ∈ queue g ->
    exists n, arena g !! node_idx e = Some n /\ is_leaf n = 1%N
              /\ depth n = node_depth e;
  inv_distinct : NoDup (map node_idx (queue g));
  inv_count : count_leaves (arena g) = n_leaves g;
  inv_budget : (n_leaves g <= Nat.max 1 max_leaf_nodes)%nat
}.

Lemma grow_start_inv : grower_inv grow_start.
Proof.
  unfold grow_start. split; simpl.
  - eauto.
  - intros [|i] n; simpl; [intros [= <-]; by left|done].
  - intros [|i] n; simpl; [intros [= <-]; done|done].
  - unfold push. destruct (evaluate _ _); [|by intros e ?%elem_of_nil].
    intros e ->%list_elem_of_singleton. simpl. eauto.
  - destruct (push_idx [] 0%nat (seq 0 (length training_rows)) 0%N)
      as [-> | ->]; simpl; [apply NoDup_nil_2|apply NoDup_singleton].
  - done.
  - lia.
Qed.

Lemma split_node_inv g e rest :
  grower_inv g ->
  queue g ≡ₚ e :: rest ->
  (n_leaves g < max_leaf_nodes)%nat ->
  grower_inv (split_node e rest g).
Proof.
  intros [Hroot Hflags Hchildren Hqueue Hdistinct Hcount Hbudget] Hperm Hlt.
  assert (e ∈ queue g) as He by (rewrite Hperm; left).
  destruct (Hqueue e He) as (n0 & Hn0 & Hleaf0 & Hdepth0).
  pose proof (lookup_lt_Some _ _ _ Hn0) as Hidx.
  assert (NoDup (node_idx e :: map node_idx rest)) as Hnd.
  { change (NoDup (map node_idx (e :: rest))). by rewrite <- Hperm. }
  apply NoDup_cons in Hnd as [Hfresh Hnd].
  assert (forall e', e' ∈ rest ->
            node_idx e' <> node_idx e /\
            exists n, arena g !! node_idx e' = Some n /\ is_leaf n = 1%N
                      /\ depth n = node_depth e')
    as Hrest.
  { intros e' He'. split.
    - intros Heq. apply Hfresh. rewrite <- Heq.
      by apply list_elem_of_fmap_2.
    - apply Hqueue. rewrite Hperm. by right. }
  set (len := length (arena g)) in *.
  set (s := node_split e).
  set (d := (node_depth e + 1)%N).
  set (sl := List.filter (goes_left s) (node_samples e)).
  set (sr := List.filter (fun i => negb (goes_left s i)) (node_samples e)).
  set (base := <[node_idx e := internal_record e len (S len)]> (arena g)).
  assert (length base = len) as Hbase by (subst base; apply length_insert).
  assert (forall i n,
    (base ++ [leaf_record sl d; leaf_record sr d]) !! i = Some n ->
    (i <> node_idx e /\ arena g !! i = Some n) \/
    (i = node_idx e /\ n = internal_record e len (S len)) \/
    ((len <= i)%nat /\ is_leaf n = 1%N)) as Hcases.
  { intros i n Hi. destruct (decide (i < len)%nat) as [Hil|Hil].
    - rewrite lookup_app_l in Hi by lia. subst base.
      destruct (decide (i = node_idx e)) as [->|Hne].
      + rewrite list_lookup_insert_eq in Hi by done.
        injection Hi as <-. right; left. done.
      + rewrite list_lookup_insert_ne in Hi by done. left. done.
    - rewrite lookup_app_r in Hi by lia. right; right. split; [lia|].
      rewrite Hbase in Hi.
      destruct (i - len)%nat as [|[|k]]; simpl in Hi; try done;
        by injection Hi as <-. }
  unfold split_node. fold len s d sl sr base.
  split; simpl.
  - destruct Hroot as (root & Hr0 & Hd0).
    rewrite lookup_app_l by lia. subst base.
    destruct (decide (node_idx e = 0%nat)) as [He0|He0].
    + rewrite He0, list_lookup_insert_eq by (fold len; lia).
      eexists. split; [done|]. simpl. rewrite <- Hdepth0.
      rewrite He0, Hr0 in Hn0. by injection Hn0 as <-.
    + rewrite list_lookup_insert_ne by done. eauto.
  - intros i n Hi.
    destruct (Hcases i n Hi) as [[_ Hold]|[[_ ->]|[_ Hnew]]];
      [by eapply Hflags|by right|by left].
  - intros i n Hi Hint. rewrite length_app, Hbase. simpl.
    destruct (Hcases i n Hi) as [[_ Hold]|[[-> ->]|[_ Hnew]]].
    + destruct (Hchildren i n Hold Hint). fold len in H, H0. lia.
    + simpl. rewrite !Nat2N.id. lia.
    + rewrite Hint in Hnew. done.
  - assert ((base ++ [leaf_record sl d; leaf_record sr d]) !! len
            = Some (leaf_record sl d)) as Hl.
    { rewrite lookup_app_r by lia. by rewrite Hbase, Nat.sub_diag. }
    assert ((base ++ [leaf_record sl d; leaf_record sr d]) !! S len
            = Some (leaf_record sr d)) as Hr.
    { rewrite lookup_app_r by lia. rewrite Hbase.
      by replace (S len - len)%nat with 1%nat by lia. }
    intros e' He'. unfold push in He'.
    assert (e' ∈ rest \/
            (node_idx e' = len /\ node_depth e' = d) \/
            (node_idx e' = S len /\ node_depth e' = d)) as Hwhere.
    { destruct (evaluate sl d), (evaluate sr d);
        repeat (apply elem_of_app in He' as [He'|He']);
        try (apply list_elem_of_singleton in He' as ->); simpl; auto. }
    destruct Hwhere as [Hin|[[Hi Hd]|[Hi Hd]]].
    + destruct (Hrest e' Hin) as [Hne (n & Hn & Hleaf)].
      exists n. split; [|done].
      rewrite lookup_app_l
        by (rewrite Hbase; by eapply lookup_lt_Some).
      subst base. by rewrite list_lookup_insert_ne.
    + rewrite Hi, Hd. eauto.
    + rewrite Hi, Hd. eauto.
  - assert (forall i, i ∈ map node_idx rest -> (i < len)%nat) as Hsmall.
    { intros i (e' & -> & He')%list_elem_of_fmap.
      destruct (Hrest e' He') as [_ (n & Hn & _)].
      apply lookup_lt_Some in Hn. by fold len in Hn. }
    assert (NoDup (map node_idx (push rest len sl d)) /\
            forall i, i ∈ map node_idx (push rest len sl d) ->
                      (i <= len)%nat) as [Hnd1 Hsmall1].
    { destruct (push_idx rest len sl d) as [-> | ->].
      - split; [done|]. intros i Hi. apply Hsmall in Hi. lia.
      - split.
        + apply NoDup_app. split; [done|]. split; [|apply NoDup_singleton].
          intros i Hi ->%list_elem_of_singleton. apply Hsmall in Hi. lia.
        + intros i [Hi| ->%list_elem_of_singleton]%elem_of_app; [|lia].
          apply Hsmall in Hi. lia. }
    destruct (push_idx (push rest len sl d) (S len) sr d) as [-> | ->];
      [done|].
    apply NoDup_app. split; [done|]. split; [|apply NoDup_singleton].
    intros i Hi ->%list_elem_of_singleton. apply Hsmall1 in Hi. lia.
  - rewrite count_leaves_app. rewrite !count_leaves_cons. simpl.
    assert (S (count_leaves base) = count_leaves (arena g)) as Hc.
    { subst base. eapply count_leaves_insert; [exact Hn0| |done].
      by rewrite Hleaf0. }
    unfold count_leaves at 2. simpl. lia.
  - lia.
Qed.

Lemma grow_loop_inv budget g :
  grower_inv g -> grower_inv (grow_loop budget g).
Proof.
  revert g. induction budget as [|budget IH]; intros g Hinv; simpl; [done|].
  destruct (Nat.leb_spec max_leaf_nodes (n_leaves g)); [done|].
  destruct (pop_best (queue g)) as [[e rest]|] eqn:Hpop; [|done].
  apply IH. apply split_node_inv; [done| |done].
  by apply pop_best_perm.
Qed.

(** The loop ends for the reason the specification gives, not for want of
    budget: the leaf budget is reached or nothing is left to split. *)
Lemma grow_loop_stops budget g :
  (max_leaf_nodes <= n_leaves g + budget)%nat ->
  let g' := grow_loop budget g in
  (max_leaf_nodes <= n_leaves g')%nat \/ queue g' = [].
Proof.
  revert g. induction budget as [|budget IH]; intros g Hb; simpl.
  - left. lia.
  - destruct (Nat.leb_spec max_leaf_nodes (n_leaves g)); [by left|].
    destruct (pop_best (queue g)) as [[e rest]|] eqn:Hpop.
    + apply IH. simpl. lia.
    + right. destruct (queue g) as [|x q]; [done|]. simpl in Hpop.
      by destruct (pop_best q) as [[? ?]|]; [destruct (num_leb _ _)|].
Qed.

Lemma grower_inv_well_formed g : grower_inv g -> well_formed (arena g).
Proof.
  intros Hinv. split.
  - destruct (inv_root g Hinv) as (root & Hr & _). by intros Hnil; rewrite Hnil in Hr.
  - intros i n Hi Hleaf%truthy_false. by apply Hinv.
Qed.

(** C6. The node array a fitted tree hands to the predictor has its root
    at index 0, and the [left] and [right] indices of every internal node
    are greater than the node's own index and inside the array. *)
Theorem grown_array_is_well_formed :
  well_formed grow /\
  exists root, grow !! 0%nat = Some root /\ depth root = 0%N.
Proof.
  pose proof (grow_loop_inv max_leaf_nodes grow_start grow_start_inv) as Hinv.
  split; [by apply grower_inv_well_formed|apply Hinv].
Qed.

(** ** Counting leaves *)

Lemma leaf_sum_counts nodes :
  (forall n, n ∈ nodes -> is_leaf n = 1%N \/ is_leaf n = 0%N) ->
  forall acc,
    (acc + N.of_nat (count_leaves nodes) < 2 ^ 64)%N ->
    fold_left (fun acc n => ((acc + is_leaf n) mod 2 ^ 64)%N) nodes acc
    = (acc + N.of_nat (count_leaves nodes))%N.
Proof.
  induction nodes as [|n nodes IH]; intros Hflags acc Hacc; simpl.
  - unfold count_leaves. simpl. lia.
  - rewrite count_leaves_cons in *.
    assert (forall m, m ∈ nodes -> is_leaf m = 1%N \/ is_leaf m = 0%N) as Hrest
      by (intros m Hm; apply Hflags; by right).
    destruct (Hflags n) as [Hn|Hn]; [by left|..]; rewrite Hn in *;
      simpl in *.
    + rewrite N.mod_small by lia. rewrite IH by (done || lia). lia.
    + rewrite N.mod_small by lia. rewrite IH by (done || lia). lia.
Qed.

(** On a node array whose flags are 0 or 1, [get_n_leaf_nodes] is the
    number of flagged records (the 64-bit accumulator cannot wrap below
    [2 ^ 64] records). *)
Lemma get_n_leaf_nodes_counts self :
  (forall n, n ∈ nodes self -> is_leaf n = 1%N \/ is_leaf n = 0%N) ->
  (Z.of_nat (length (nodes self)) < 2 ^ 64)%Z ->
  get_n_leaf_nodes self = Z.of_nat (count_leaves (nodes self)).
Proof.
  intros Hflags Hlen. unfold get_n_leaf_nodes.
  assert (count_leaves (nodes self) <= length (nodes self))%nat as Hle
    by apply length_filter.
  rewrite leaf_sum_counts; [lia|done|].
  change (2 ^ 64)%N with (Z.to_N (2 ^ 64)). lia.
Qed.

(** C8. For a fitted tree, [get_n_leaf_nodes()] is the number of node
    records whose [is_leaf] flag is set, and it does not exceed
    [max_leaf_nodes] (a budget of at least one leaf, the root, and below
    the range of the 64-bit accumulator). *)
Theorem fitted_tree_leaf_budget numeric :
  (1 <= max_leaf_nodes)%nat ->
  (Z.of_nat max_leaf_nodes < 2 ^ 64)%Z ->
  get_n_leaf_nodes (fitted_tree numeric) = Z.of_nat (count_leaves grow) /\
  (get_n_leaf_nodes (fitted_tree numeric) <= Z.of_nat max_leaf_nodes)%Z.
Proof.
  intros Hone Hmax.
  pose proof (grow_loop_inv max_leaf_nodes grow_start grow_start_inv) as Hinv.
  fold grow in Hinv.
  pose proof (inv_count _ Hinv) as Hcount.
  pose proof (inv_budget _ Hinv) as Hbudget.
  assert (count_leaves grow <= max_leaf_nodes)%nat as Hle
    by (unfold grow; lia).
  assert (get_n_leaf_nodes (fitted_tree numeric)
          = Z.of_nat (count_leaves grow)) as Heq.
  { unfold get_n_leaf_nodes, fitted_tree. simpl.
    rewrite leaf_sum_counts.
    - lia.
    - intros n (i & Hi)%list_elem_of_lookup. by eapply (inv_flags _ Hinv).
    - change (2 ^ 64)%N with (Z.to_N (2 ^ 64)). lia. }
  split; [done|]. rewrite Heq. lia.
Qed.

(** ** More on the per-sample routines *)

(** Whatever a routine does after the walk, it does through the row
    assignment at the leaf the walk found. *)
Lemma binned_outcome_inv fuel nodes sample out idx :
  _predict_one_binned fuel nodes sample out idx =
  (node ← getitem nodes 0%N;
   leaf ← walk binned_le fuel nodes sample node;
   assign_row out idx (value leaf)).
Proof.
  unfold _predict_one_binned. destruct (getitem nodes 0%N); try done.
  rewrite !bind_Return. apply binned_loop_walk.
Qed.

Lemma numeric_outcome_inv fuel nodes sample out idx :
  _predict_one_from_numeric_data fuel nodes sample out idx =
  (node ← getitem nodes 0%N;
   leaf ← walk numeric_le fuel nodes sample node;
   assign_row out idx (value leaf)).
Proof.
  unfold _predict_one_from_numeric_data.
  destruct (getitem nodes 0%N); try done.
  rewrite !bind_Return. apply numeric_loop_walk.
Qed.

Lemma assign_row_width out idx v out' row row' :
  assign_row out idx v = Return out' ->
  rows out !! idx = Some row ->
  rows out' !! idx = Some row' ->
  length row' = length row.
Proof.
  unfold assign_row. intros H Hrow. rewrite Hrow in H.
  pose proof (lookup_lt_Some _ _ _ Hrow) as Hidx.
  destruct (_ =? _)%nat eqn:Hlen.
  - injection H as <-. simpl. rewrite list_lookup_insert_eq by done.
    intros [= <-]. by apply Nat.eqb_eq.
  - destruct (map _ v) as [|c [|? ?]]; try done.
    injection H as <-. simpl. rewrite list_lookup_insert_eq by done.
    intros [= <-]. apply length_replicate.
Qed.

Lemma assign_row_raises out idx v e :
  assign_row out idx v = Raise e ->
  e = IndexError \/
  exists row,
    rows out !! idx = Some row /\
    length v <> length row /\ length v <> 1%nat /\
    e = ValueError (broadcast_error (length v) (length row)).
Proof.
  unfold assign_row.
  destruct (rows out !! idx) as [row|]; [|intros [= <-]; by left].
  rewrite length_map.
  destruct (Nat.eqb_spec (length v) (length row)) as [Hl|Hl]; [done|].
  destruct v as [|x [|y v]]; simpl; try done; intros [= <-]; right;
    exists row; simpl in *; repeat split; try done; lia.
Qed.

Lemma walk_Return_elem le nodes sample fuel :
  forall node leaf,
    node ∈ nodes ->
    walk le fuel nodes sample node = Return leaf -> leaf ∈ nodes.
Proof.
  induction fuel as [|fuel IH]; intros node leaf Hin; simpl; [done|].
  destruct (truthy (is_leaf node)); [by intros [= <-]|].
  destruct (getitem sample (feature_idx node)) as [x| |]; [|done..].
  rewrite bind_Return.
  destruct (getitem nodes _) as [node'| |] eqn:Hn; [|done..].
  rewrite bind_Return. apply IH.
  apply getitem_Return in Hn. by eapply list_elem_of_lookup_2.
Qed.

Lemma getitem_raises {A : Type} (a : list A) (i : N) e :
  getitem a i = Raise e -> e = IndexError.
Proof. unfold getitem. destruct (a !! N.to_nat i); congruence. Qed.

Lemma walk_raises le nodes sample fuel :
  forall node e, walk le fuel nodes sample node = Raise e -> e = IndexError.
Proof.
  induction fuel as [|fuel IH]; intros node e; simpl; [done|].
  destruct (truthy (is_leaf node)); [done|].
  destruct (getitem sample (feature_idx node)) as [x| |] eqn:Hx;
    [|intros [= <-]; by eapply getitem_raises|done].
  rewrite bind_Return.
  destruct (getitem nodes _) as [node'| |] eqn:Hn;
    [|intros [= <-]; by eapply getitem_raises|done].
  rewrite bind_Return. apply IH.
Qed.

Lemma predict_one_raises le nodes sample out idx fuel e :
  (node ← getitem nodes 0%N;
   leaf ← walk le fuel nodes sample node;
   assign_row out idx (value leaf)) = Raise e ->
  e = IndexError \/
  exists leaf row,
    leaf ∈ nodes /\ truthy (is_leaf leaf) = true /\
    rows out !! idx = Some row /\
    length (value leaf) <> length row /\ length (value leaf) <> 1%nat /\
    e = ValueError
          (broadcast_error (length (value leaf)) (length row)).
Proof.
  destruct (getitem nodes 0%N) as [node| |] eqn:Hn;
    [|intros [= <-]; left; by eapply getitem_raises|done].
  rewrite bind_Return.
  destruct (walk le fuel nodes sample node) as [leaf| |] eqn:Hw;
    [|intros [= <-]; left; by eapply walk_raises|done].
  rewrite bind_Return. intros [->|(row & Hrow & Hl & H1 & ->)]%assign_row_raises;
    [by left|right].
  apply getitem_Return in Hn.
  exists leaf, row. repeat split; try done.
  - eapply walk_Return_elem; [|exact Hw]. by eapply list_elem_of_lookup_2.
  - pose proof (walk_reaches le nodes sample fuel 0 node leaf Hn Hw) as Hr.
    clear -Hr. induction Hr; done.
Qed.

Lemma predict_one_frame le nodes sample out idx fuel out' :
  (node ← getitem nodes 0%N;
   leaf ← walk le fuel nodes sample node;
   assign_row out idx (value leaf)) = Return out' ->
  dtype out' = dtype out /\
  length (rows out') = length (rows out) /\
  (forall j, j <> idx -> rows out' !! j = rows out !! j) /\
  (forall row row',
     rows out !! idx = Some row -> rows out' !! idx = Some row' ->
     length row' = length row).
Proof.
  destruct (getitem nodes 0%N) as [node| |]; [|done..].
  rewrite bind_Return.
  destruct (walk le fuel nodes sample node) as [leaf| |]; [|done..].
  rewrite bind_Return. intros H.
  destruct (assign_row_frame _ _ _ _ H) as (Hd & Hl & Hf).
  repeat split; try done.
  intros row row'. by apply assign_row_width with (v := value leaf).
Qed.

(** X3. A per-sample routine that returns has changed nothing of [out] but
    row [idx]: the element type, the number of rows and every other row are
    as before, and row [idx] has kept its width. *)
Theorem predict_one_writes_one_row fuel nodes sample out idx out' :
  _predict_one_binned fuel nodes sample out idx = Return out'
  \/ _predict_one_from_numeric_data fuel nodes sample out idx = Return out' ->
  dtype out' = dtype out /\
  length (rows out') = length (rows out) /\
  (forall j, j <> idx -> rows out' !! j = rows out !! j) /\
  (forall row row',
     rows out !! idx = Some row -> rows out' !! idx = Some row' ->
     length row' = length row).
Proof.
  rewrite binned_outcome_inv, numeric_outcome_inv.
  intros [H|H]; by eapply predict_one_frame.
Qed.

(** X4. The only exceptions a per-sample routine raises are [IndexError]
    (no record, no feature or no row at the index used) and numpy's
    broadcast [ValueError], with numpy's message: it is raised at a leaf
    of the array whose output has neither the width of row [idx] nor
    length one, and it names the two shapes. *)
Theorem predict_one_exceptions fuel nodes sample out idx e :
  _predict_one_binned fuel nodes sample out idx = Raise e
  \/ _predict_one_from_numeric_data fuel nodes sample out idx = Raise e ->
  e = IndexError \/
  exists leaf row,
    leaf ∈ nodes /\ truthy (is_leaf leaf) = true /\
    rows out !! idx = Some row /\
    length (value leaf) <> length row /\ length (value leaf) <> 1%nat /\
    e = ValueError
          (broadcast_error (length (value leaf)) (length row)).
Proof.
  rewrite binned_outcome_inv, numeric_outcome_inv.
  intros [H|H]; by eapply predict_one_raises.
Qed.

Lemma walk_total le nodes sample :
  well_formed nodes ->
  covers_features nodes sample ->
  forall fuel i node,
    nodes !! i = Some node ->
    (length nodes <= fuel + i)%nat ->
    exists leaf,
      walk le fuel nodes sample node = Return leaf /\
      leaf ∈ nodes /\ truthy (is_leaf leaf) = true /\
      reaches le nodes sample i leaf.
Proof.
  intros [_ Hwf] Hcov. induction fuel as [|fuel IH]; intros i node Hi Hfuel.
  - apply lookup_lt_Some in Hi. simpl in Hfuel. lia.
  - simpl. destruct (truthy (is_leaf node)) eqn:Hleaf.
    + exists node. split; [done|]. split; [by eapply list_elem_of_lookup_2|].
      split; [done|]. by apply reaches_leaf.
    + assert (node ∈ nodes) as Hin by (by eapply list_elem_of_lookup_2).
      destruct (lookup_lt_is_Some_2 sample (N.to_nat (feature_idx node)))
        as [x Hx]; [by apply Hcov|].
      pose proof Hx as Hgx. apply getitem_Return in Hgx.
      rewrite Hgx, bind_Return.
      destruct (Hwf i node Hi Hleaf) as [Hl Hr].
      set (c := if le x node then left node else right node).
      assert (i < N.to_nat c < length nodes)%nat as Hc
        by (subst c; destruct (le x node); lia).
      destruct (lookup_lt_is_Some_2 nodes (N.to_nat c)) as [node' Hn'];
        [lia|].
      pose proof Hn' as Hg. apply getitem_Return in Hg.
      rewrite Hg, bind_Return.
      destruct (IH (N.to_nat c) node' Hn') as (leaf & Hw & Hlin & Hlf & Hre);
        [lia|].
      exists leaf. repeat split; try done.
      subst c. destruct (le x node) eqn:Hle.
      * by eapply reaches_left.
      * by eapply reaches_right.
Qed.

Lemma predict_one_total le nodes sample out idx fuel row :
  well_formed nodes ->
  covers_features nodes sample ->
  leaf_width nodes (length row) ->
  rows out !! idx = Some row ->
  (length nodes <= fuel)%nat ->
  exists leaf out',
    reaches le nodes sample 0 leaf /\
    (node ← getitem nodes 0%N;
     leaf ← walk le fuel nodes sample node;
     assign_row out idx (value leaf)) = Return out' /\
    dtype out' = dtype out /\
    rows out' !! idx = Some (map (cast (dtype out)) (value leaf)) /\
    forall j, j <> idx -> rows out' !! j = rows out !! j.
Proof.
  intros Hwf Hcov Hwidth Hrow Hfuel.
  destruct (lookup_lt_is_Some_2 nodes 0%nat) as [root Hroot].
  { destruct Hwf as [Hne _]. destruct nodes; [done|simpl; lia]. }
  destruct (walk_total le nodes sample Hwf Hcov fuel 0 root Hroot)
    as (leaf & Hw & Hin & Hleaf & Hre); [lia|].
  destruct (assign_row_writes out idx (value leaf) row Hrow)
    as (out' & Ha & Hd & Hi & Hf); [by apply Hwidth|].
  exists leaf, out'. split; [done|].
  apply (getitem_Return nodes 0%N) in Hroot.
  by rewrite Hroot, bind_Return, Hw, bind_Return.
Qed.

(** X2. On a well-formed node array, for a sample that has a value for
    every split feature and an output row as wide as the leaf outputs, both
    per-sample routines return (given as many iterations as there are
    records): row [idx] then holds the converted output of the leaf the
    walk from node 0 reaches, and the other rows are untouched. *)
Theorem predict_one_total_correctness nodes sample out idx fuel row :
  well_formed nodes ->
  covers_features nodes sample ->
  leaf_width nodes (length row) ->
  rows out !! idx = Some row ->
  (length nodes <= fuel)%nat ->
  (exists leaf out',
     reaches binned_le nodes sample 0 leaf /\
     _predict_one_binned fuel nodes sample out idx = Return out' /\
     dtype out' = dtype out /\
     rows out' !! idx = Some (map (cast (dtype out)) (value leaf)) /\
     forall j, j <> idx -> rows out' !! j = rows out !! j) /\
  (exists leaf out',
     reaches numeric_le nodes sample 0 leaf /\
     _predict_one_from_numeric_data fuel nodes sample out idx = Return out' /\
     dtype out' = dtype out /\
     rows out' !! idx = Some (map (cast (dtype out)) (value leaf)) /\
     forall j, j <> idx -> rows out' !! j = rows out !! j).
Proof.
  intros Hwf Hcov Hwidth Hrow Hfuel.
  rewrite binned_outcome_inv, numeric_outcome_inv.
  split; by eapply predict_one_total.
Qed.

(** ** The depth of a tree *)

Lemma fold_max_depth ns :
  forall m0,
    let m := fold_left (fun m n' => N.max m (depth n')) ns m0 in
    (m0 <= m)%N /\
    (forall n, n ∈ ns -> (depth n <= m)%N) /\
    (m = m0 \/ exists n, n ∈ ns /\ depth n = m).
Proof.
  induction ns as [|n ns IH]; intros m0; simpl.
  - split; [lia|]. split; [by intros n ?%elem_of_nil|by left].
  - destruct (IH (N.max m0 (depth n))) as (Hge & Hall & Hwho).
    split; [lia|]. split.
    + intros n' [->|Hin]%elem_of_cons; [lia|by apply Hall].
    + destruct Hwho as [Hm|(n' & Hin & Hn')].
      * destruct (N.max_spec m0 (depth n)) as [[_ Hmax]|[_ Hmax]].
        -- right. exists n. split; [by left|]. congruence.
        -- left. congruence.
      * right. exists n'. split; [by right|done].
Qed.

(** X1. [get_max_depth] raises numpy's [ValueError] exactly on an empty
    node array; otherwise it returns the depth of some record, and no record
    (leaf or internal) has a greater depth. *)
Theorem get_max_depth_is_maximum self :
  (get_max_depth self = Raise (ValueError empty_max_error)
   <-> nodes self = []) /\
  (forall m,
     get_max_depth self = Return m <->
     (exists n, n ∈ nodes self /\ Z.of_N (depth n) = m) /\
     (forall n, n ∈ nodes self -> (Z.of_N (depth n) <= m)%Z)).
Proof.
  unfold get_max_depth. destruct (nodes self) as [|n ns].
  - split; [done|]. intros m. split; [done|].
    by intros [(n & Hn%elem_of_nil & _) _].
  - split; [done|]. intros m.
    destruct (fold_max_depth ns (depth n)) as (Hge & Hall & Hwho).
    set (mx := fold_left _ ns (depth n)) in *. split.
    + intros [= <-]. split.
      * destruct Hwho as [->|(n' & Hin & Hn')].
        -- exists n. split; [by left|done].
        -- exists n'. split; [by right|by rewrite Hn'].
      * intros n' [->|Hin]%elem_of_cons; [lia|]. specialize (Hall n' Hin). lia.
    + intros [(n1 & Hin1 & Hm1) Hmax]. f_equal.
      assert (Z.of_N mx <= m)%Z.
      { destruct Hwho as [->|(n' & Hin & <-)]; apply Hmax; [by left|by right]. }
      assert (m <= Z.of_N mx)%Z; [|lia].
      rewrite <- Hm1. apply elem_of_cons in Hin1 as [->|Hin1]; [lia|].
      specialize (Hall n1 Hin1). lia.
Qed.

(** ** Fields the loops never read *)

Lemma getitem_Forall2 {A : Type} (R : A -> A -> Prop) (l k : list A) (i : N) :
  Forall2 R l k ->
  match getitem l i, getitem k i with
  | Return a, Return b => R a b
  | Raise e1, Raise e2 => e1 = e2
  | _, _ => False
  end.
Proof.
  intros H. unfold getitem.
  destruct (l !! N.to_nat i) as [a|] eqn:Ha.
  - destruct (Forall2_lookup_l _ _ _ _ _ H Ha) as (b & -> & Hab). done.
  - apply lookup_ge_None in Ha. rewrite (Forall2_length _ _ _ H) in Ha.
    apply lookup_ge_None in Ha. by rewrite Ha.
Qed.

(** One iteration of either loop on two arrays that agree on the fields
    the loop reads. *)
Ltac same_route_step H IH nodes1 nodes2 n2 :=
  let Hl := fresh "Hl" in let Hv := fresh "Hv" in let Hf := fresh "Hf" in
  let Ht := fresh "Ht" in let Hle := fresh "Hle" in let Hri := fresh "Hri" in
  let Hg := fresh "Hg" in
  intros (Hl & Hv & Hf & Ht & Hle & Hri); simpl;
  rewrite Hl, Hv, Hf, Ht;
  destruct (truthy (is_leaf n2)); [done|];
  match goal with
  | |- context [getitem ?s (feature_idx n2)] =>
      destruct (getitem s (feature_idx n2)); [|done..]
  end;
  rewrite ?bind_Return;
  match goal with |- context [scalar_leb ?x ?y] => destruct (scalar_leb x y) end;
  [ rewrite Hle; pose proof (getitem_Forall2 _ _ _ (left n2) H) as Hg;
    destruct (getitem nodes1 (left n2)), (getitem nodes2 (left n2))
  | rewrite Hri; pose proof (getitem_Forall2 _ _ _ (right n2) H) as Hg;
    destruct (getitem nodes1 (right n2)), (getitem nodes2 (right n2)) ];
  try done; try (subst; reflexivity); rewrite ?bind_Return; by apply IH.

Lemma binned_loop_same_route nodes1 nodes2 sample out idx :
  Forall2 same_binned_route nodes1 nodes2 ->
  forall fuel n1 n2,
    same_binned_route n1 n2 ->
    _predict_one_binned_loop fuel nodes1 sample out idx n1 =
    _predict_one_binned_loop fuel nodes2 sample out idx n2.
Proof.
  intros H. induction fuel as [|fuel IH]; intros n1 n2; [done|].
  same_route_step H IH nodes1 nodes2 n2.
Qed.

Lemma numeric_loop_same_route nodes1 nodes2 sample out idx :
  Forall2 same_numeric_route nodes1 nodes2 ->
  forall fuel n1 n2,
    same_numeric_route n1 n2 ->
    _predict_one_from_numeric_data_loop fuel nodes1 sample out idx n1 =
    _predict_one_from_numeric_data_loop fuel nodes2 sample out idx n2.
Proof.
  intros H. induction fuel as [|fuel IH]; intros n1 n2; [done|].
  same_route_step H IH nodes1 nodes2 n2.
Qed.

(** X5. The binned routine reads [is_leaf], [value], [feature_idx],
    [bin_threshold], [left] and [right] only: two node arrays that agree on
    these fields, record by record, give the same outcome, whatever their
    [threshold], [count], [gain] and [depth] are. *)
Theorem binned_path_ignores_other_fields nodes1 nodes2 fuel sample out idx :
  Forall2 same_binned_route nodes1 nodes2 ->
  _predict_one_binned fuel nodes1 sample out idx =
  _predict_one_binned fuel nodes2 sample out idx.
Proof.
  intros H. unfold _predict_one_binned.
  pose proof (getitem_Forall2 _ _ _ 0%N H) as Hg.
  destruct (getitem nodes1 0%N) as [a| |], (getitem nodes2 0%N) as [b| |];
    try done; try (subst; reflexivity).
  rewrite !bind_Return. by apply binned_loop_same_route.
Qed.

(** X6. The numeric routine reads [is_leaf], [value], [feature_idx],
    [threshold], [left] and [right] only: two node arrays that agree on
    these fields, record by record, give the same outcome, whatever their
    [bin_threshold], [count], [gain] and [depth] are. *)
Theorem numeric_path_ignores_other_fields nodes1 nodes2 fuel sample out idx :
  Forall2 same_numeric_route nodes1 nodes2 ->
  _predict_one_from_numeric_data fuel nodes1 sample out idx =
  _predict_one_from_numeric_data fuel nodes2 sample out idx.
Proof.
  intros H. unfold _predict_one_from_numeric_data.
  pose proof (getitem_Forall2 _ _ _ 0%N H) as Hg.
  destruct (getitem nodes1 0%N) as [a| |], (getitem nodes2 0%N) as [b| |];
    try done; try (subst; reflexivity).
  rewrite !bind_Return. by apply numeric_loop_same_route.
Qed.

(** ** The layout the constructor leaves behind *)

Lemma string_length_app (a b : string) :
  String.length (a ++ b)%string = (String.length a + String.length b)%nat.
Proof. induction a as [|c a IH]; simpl; [done|]. by rewrite IH. Qed.

Lemma string_app_inv_suffix (a b suffix : string) :
  (a ++ suffix)%string = (b ++ suffix)%string -> a = b.
Proof.
  revert b. induction a as [|c a IH]; intros b H.
  - destruct b as [|d b]; [done|]. apply (f_equal String.length) in H.
    rewrite !string_length_app in H. cbn [String.length] in H. lia.
  - destruct b as [|d b].
    + apply (f_equal String.length) in H.
      rewrite !string_length_app in H. cbn [String.length] in H. lia.
    + cbn [String.append] in H. injection H as -> H. f_equal. by apply IH.
Qed.

Lemma str_inj (a b : N) : str a = str b -> a = b.
Proof.
  unfold str. intros H. apply DecimalN.Unsigned.to_uint_inj.
  assert (forall n, N.to_uint n <> Decimal.Nil) as Hnil.
  { intros [|q]; simpl; [done|apply DecimalPos.Unsigned.to_uint_nonnil]. }
  pose proof (NilZero.usu _ (Hnil a)) as Ha.
  pose proof (NilZero.usu _ (Hnil b)) as Hb.
  rewrite H in Ha. congruence.
Qed.

(** X7. The layout [__init__] leaves in [PREDICTOR_RECORD_DTYPE] tells the
    width it was built for: two constructions leave the same layout exactly
    when their [prediction_dim] arguments are equal, whatever the other
    arguments and the state before were. *)
Theorem init_layout_determines_dim nodes1 thr1 dim1 w1 nodes2 thr2 dim2 w2 :
  PREDICTOR_RECORD_DTYPE (snd (TreePredictor_init nodes1 thr1 dim1 w1))
  = PREDICTOR_RECORD_DTYPE (snd (TreePredictor_init nodes2 thr2 dim2 w2))
  <-> dim1 = dim2.
Proof.
  unfold TreePredictor_init, make_record_dtype. simpl. split.
  - intros [= H]. by apply str_inj, string_app_inv_suffix with "f8".
  - by intros ->.
Qed.

(** ** What the batch entry points do to the world *)

Lemma for_each_print {A : Type} (f : A -> string) (xs : list A) w :
  for_each xs (fun x => print (f x)) w =
  (Return tt,
   mk_world (PREDICTOR_RECORD_DTYPE w) (stdout w ++ map f xs)
            (uninitialised w) (children w)).
Proof.
  revert w. induction xs as [|x xs IH]; intros w; simpl.
  - destruct w. by rewrite app_nil_r.
  - unfold bind_M, print at 1. rewrite IH. simpl. by rewrite <- app_assoc.
Qed.

Lemma for_each_print_start fuel (f : nat -> string)
    (ps : list (nat * Process)) w :
  for_each ps (fun ip => print (f (fst ip)) ;;; Process_start fuel (snd ip)) w
  = (Return tt,
     mk_world (PREDICTOR_RECORD_DTYPE w)
              (stdout w ++ map (fun ip => f (fst ip)) ps)
              (uninitialised w)
              (children w ++ map (fun ip => target (snd ip) fuel) ps)).
Proof.
  revert w. induction ps as [|p ps IH]; intros w; simpl.
  - destruct w. by rewrite !app_nil_r.
  - unfold bind_M at 1 2, print at 1, Process_start at 1. rewrite IH. simpl.
    by rewrite <- !app_assoc.
Qed.

Lemma for_each_print_join fuel (f : nat -> string)
    (ps : list (nat * Process)) w :
  Forall (fun ip => terminated (target (snd ip) fuel) = true) ps ->
  for_each ps (fun ip => print (f (fst ip)) ;;; Process_join fuel (snd ip)) w
  = (Return tt,
     mk_world (PREDICTOR_RECORD_DTYPE w)
              (stdout w ++ map (fun ip => f (fst ip)) ps)
              (uninitialised w) (children w)).
Proof.
  intros Hall. revert w.
  induction Hall as [|p ps Hp Hps IH]; intros w; simpl.
  - destruct w. by rewrite app_nil_r.
  - unfold bind_M at 1 2, print at 1, Process_join at 1. rewrite Hp, IH. simpl.
    by rewrite <- app_assoc.
Qed.

Lemma imap_indices {A B C : Type} (h : nat -> C) (rs : list A) :
  forall (g : nat -> A -> nat * B) (f : nat -> nat),
    (forall i r, fst (g i r) = f i) ->
    map (fun ip : nat * B => h (fst ip)) (imap g rs)
    = map (fun i => h (f i)) (seq 0 (length rs)).
Proof.
  induction rs as [|r rs IH]; intros g f Hg; simpl; [done|].
  rewrite Hg. f_equal.
  rewrite <- fmap_S_seq, <- list_fmap_compose.
  apply (IH (g ∘ S) (fun i => f (S i))). intros i r'. apply Hg.
Qed.

(** X8. A call of [predict] that passes validation on a well-formed tree
    returns (given as many iterations per child as there are records), and
    it has printed exactly [multiprocessing] followed by the row indices
    three times over: once when the processes are made, once when they are
    started, once when they are joined.  It has started one child per row
    and left the module global alone. *)
Theorem predict_prints_progress fuel self X w :
  has_numerical_thresholds self = true ->
  dtype X <> np_uint8 ->
  well_formed (nodes self) ->
  (length (nodes self) <= fuel)%nat ->
  let idxs := map (fun i => str (N.of_nat i)) (seq 0 (length (rows X))) in
  exists w',
    predict fuel self X w =
    (Return (fresh_array w (length (rows X))
               (N.to_nat (prediction_dim self)) np_float32), w') /\
    stdout w' = stdout w ++ "multiprocessing" :: idxs ++ idxs ++ idxs /\
    PREDICTOR_RECORD_DTYPE w' = PREDICTOR_RECORD_DTYPE w /\
    length (children w') = (length (children w) + length (rows X))%nat.
Proof.
  intros Hthr Hd Hwf Hfuel idxs. unfold predict. rewrite Hthr. simpl.
  destruct (np_dtype_eqb (dtype X) np_uint8) eqn:He;
    [by apply np_dtype_eqb_eq in He|].
  unfold bind_M at 1, np_empty.
  set (fresh := fresh_array w _ _ _).
  unfold _predict_from_numeric_data.
  set (ps := imap _ (rows X)).
  unfold bind_M at 1, print at 1.
  unfold bind_M at 1. rewrite for_each_print.
  unfold bind_M at 1.
  rewrite (for_each_print_start fuel (fun i => str (N.of_nat i))).
  unfold bind_M at 1.
  rewrite (for_each_print_join fuel (fun i => str (N.of_nat i))).
  - unfold ret_M. simpl. eexists. split; [reflexivity|]. simpl.
    assert (map (fun ip : nat * Process => str (N.of_nat (fst ip))) ps = idxs)
      as ->.
    { subst ps idxs.
      by apply (imap_indices (fun i => str (N.of_nat i)) (rows X) _
                  (fun i => i)). }
    split; [by rewrite <- !app_assoc|]. split; [done|].
    rewrite length_app, length_map. subst ps. by rewrite length_imap.
  - apply Forall_forall. intros [i p] Hin.
    apply list_elem_of_lookup in Hin as [k Hk]. subst ps.
    rewrite list_lookup_imap in Hk.
    destruct (rows X !! k) as [row|]; [|done]. injection Hk as <- <-.
    simpl. by apply predict_one_numeric_terminates.
Qed.

(** X9. [predict_binned] with a caller's [out] on [uint8] input: it returns
    that very array, unchanged, exactly when every child's traversal ends,
    and otherwise stays in [join]; it checks neither the shape nor the
    element type of [out].  It prints nothing, leaves the module global
    alone and has started one child per row. *)
Theorem predict_binned_with_out fuel self binned_data out w :
  dtype binned_data = np_uint8 ->
  let r := predict_binned fuel self binned_data (Some out) w in
  (fst r = Return out <->
   forall i row,
     rows binned_data !! i = Some row ->
     terminated (_predict_one_binned fuel (nodes self) row out i) = true) /\
  (fst r = Return out \/ fst r = OutOfFuel) /\
  PREDICTOR_RECORD_DTYPE (snd r) = PREDICTOR_RECORD_DTYPE w /\
  stdout (snd r) = stdout w /\
  length (children (snd r))
  = (length (children w) + length (rows binned_data))%nat.
Proof.
  intros Hd r.
  set (kids := imap (fun i row =>
                       _predict_one_binned fuel (nodes self) row out i)
                    (rows binned_data)).
  assert (r = (if forallb terminated kids then Return out else OutOfFuel,
               mk_world (PREDICTOR_RECORD_DTYPE w) (stdout w)
                        (uninitialised w) (children w ++ kids))) as ->.
  { subst r. unfold predict_binned.
    apply np_dtype_eqb_eq in Hd. rewrite Hd. simpl.
    unfold bind_M, ret_M. by rewrite predict_binned_driver_outcome. }
  simpl.
  assert (forallb terminated kids = true <->
          forall i row,
            rows binned_data !! i = Some row ->
            terminated (_predict_one_binned fuel (nodes self) row out i)
            = true) as Hall.
  { rewrite forallb_forall. split.
    - intros H i row Hi. apply H, list_elem_of_In, list_elem_of_lookup.
      exists i. subst kids. by rewrite list_lookup_imap, Hi.
    - intros H o Ho. apply list_elem_of_In, list_elem_of_lookup in Ho as [i Hi].
      subst kids. rewrite list_lookup_imap in Hi.
      destruct (rows binned_data !! i) as [row|] eqn:Hrow; [|done].
      injection Hi as <-. by eapply H. }
  split; [|split; [|split; [done|split; [done|]]]].
  - rewrite <- Hall. by destruct (forallb terminated kids).
  - destruct (forallb terminated kids); [by left|by right].
  - rewrite length_app. subst kids. by rewrite length_imap.
Qed.

(** ** Flags that are not 0 or 1 *)

Definition flag_sum (nodes : list node_record) : N :=
  foldr (fun n s => (is_leaf n + s)%N) 0%N nodes.

Lemma flag_sum_bounds nodes :
  Forall (fun n => (is_leaf n <= 255)%N) nodes ->
  (N.of_nat (count_leaves nodes) <= flag_sum nodes)%N /\
  (flag_sum nodes <= 255 * N.of_nat (length nodes))%N /\
  (flag_sum nodes = N.of_nat (count_leaves nodes) <->
   Forall (fun n => (is_leaf n <= 1)%N) nodes).
Proof.
  induction 1 as [|n nodes Hn Hall IH]; simpl.
  - unfold count_leaves. simpl. split; [lia|]. split; [lia|]. done.
  - rewrite count_leaves_cons, Forall_cons. destruct IH as (Hlo & Hhi & Heq).
    rewrite <- Heq.
    assert (truthy (is_leaf n) = negb (is_leaf n =? 0)%N) as Ht by done.
    destruct (N.eqb_spec (is_leaf n) 0) as [H0|H0]; rewrite Ht; simpl.
    + split; [lia|]. split; [lia|]. split; [intros ?; split; lia|].
      intros [? ?]. lia.
    + split; [lia|]. split; [lia|]. split; [intros ?; split; lia|].
      intros [? ?]. lia.
Qed.

Lemma leaf_sum_is_flag_sum nodes :
  forall acc,
    (acc + flag_sum nodes < 2 ^ 64)%N ->
    fold_left (fun acc n => ((acc + is_leaf n) mod 2 ^ 64)%N) nodes acc
    = (acc + flag_sum nodes)%N.
Proof.
  induction nodes as [|n nodes IH]; intros acc Hacc; simpl in *; [lia|].
  rewrite N.mod_small by lia. rewrite IH by lia. lia.
Qed.

(** X10. On an array of [uint8] flags short enough for the 64-bit
    accumulator, [get_n_leaf_nodes] is never below the number of records the
    traversal treats as leaves, and it equals that number exactly when every
    flag is 0 or 1: a flag [k] counts for [k] leaves. *)
Theorem get_n_leaf_nodes_vs_leaves self :
  Forall (fun n => (is_leaf n <= 255)%N) (nodes self) ->
  (255 * Z.of_nat (length (nodes self)) < 2 ^ 64)%Z ->
  (Z.of_nat (count_leaves (nodes self)) <= get_n_leaf_nodes self)%Z /\
  (get_n_leaf_nodes self = Z.of_nat (count_leaves (nodes self)) <->
   Forall (fun n => (is_leaf n <= 1)%N) (nodes self)).
Proof.
  intros Hflags Hlen.
  destruct (flag_sum_bounds _ Hflags) as (Hlo & Hhi & Heq).
  unfold get_n_leaf_nodes. rewrite leaf_sum_is_flag_sum.
  - rewrite N.add_0_l. split; [lia|]. rewrite <- Heq. lia.
  - change (2 ^ 64)%N with (Z.to_N (2 ^ 64)). lia.
Qed.

End Predictor.

(** * A concrete tree

    The properties above, run on a stump: one split on feature 0 at bin 0
    (numeric threshold 5), two leaves with outputs 10 and 20.  Floats are
    instantiated by integers, stored without rounding. *)

Open Scope Z_scope.

Definition Zcast (dt : np_dtype) (x : Z) : scalar Z := SFloat Z x.

Definition Zleaf (v : Z) (d : N) : node_record Z :=
  mk_node Z 1 [v] 1 0 0 0%Z 0 0 0%Z d.

Definition stump : list (node_record Z) :=
  [ mk_node Z 0 [0%Z] 2 0 0 5%Z 1 2 9%Z 0; Zleaf 10 1; Zleaf 20 1 ].

(** A back-edge: the only node is internal and points at itself. *)
Definition knot : list (node_record Z) :=
  [ mk_node Z 0 [0%Z] 2 0 0 5%Z 0 0 9%Z 0 ].

Definition stump_predictor : TreePredictor Z := mk_TreePredictor Z 1 stump true.

Definition zeros (i j : nat) : scalar Z := SFloat Z 0.
Definition ones (i j : nat) : scalar Z := SFloat Z 1.

Definition binned_batch : ndarray Z :=
  mk_ndarray Z np_uint8 [[SInt Z 0]; [SInt Z 1]].

Definition raw_batch : ndarray Z :=
  mk_ndarray Z np_float64 [[SFloat Z 3]; [SFloat Z 8]].

Definition blank : ndarray Z :=
  mk_ndarray Z np_float32 [[SFloat Z 0]; [SFloat Z 0]].

Example stump_binned_left :
  _predict_one_binned Z Z.leb id Zcast 2 stump [SInt Z 0] blank 0
  = Return (mk_ndarray Z np_float32 [[SFloat Z 10]; [SFloat Z 0]]).
Proof. reflexivity. Qed.

Example stump_binned_right :
  _predict_one_binned Z Z.leb id Zcast 2 stump [SInt Z 1] blank 1
  = Return (mk_ndarray Z np_float32 [[SFloat Z 0]; [SFloat Z 20]]).
Proof. reflexivity. Qed.

Example stump_numeric_left :
  _predict_one_from_numeric_data Z Z.leb id Zcast 2 stump [SFloat Z 5] blank 0
  = Return (mk_ndarray Z np_float32 [[SFloat Z 10]; [SFloat Z 0]]).
Proof. reflexivity. Qed.

Example stump_numeric_right :
  _predict_one_from_numeric_data Z Z.leb id Zcast 2 stump [SFloat Z 8] blank 1
  = Return (mk_ndarray Z np_float32 [[SFloat Z 0]; [SFloat Z 20]]).
Proof. reflexivity. Qed.

Example stump_missing_feature :
  _predict_one_binned Z Z.leb id Zcast 2 stump [] blank 0 = Raise IndexError.
Proof. reflexivity. Qed.

Example knot_never_returns :
  forall fuel out idx,
    _predict_one_binned Z Z.leb id Zcast fuel knot [SInt Z 0] out idx
    = OutOfFuel.
Proof.
  intros fuel out idx.
  induction fuel as [|fuel IH]; [reflexivity|exact IH].
Qed.

Example stump_leaf_count : get_n_leaf_nodes Z stump_predictor = 2%Z.
Proof. reflexivity. Qed.

(** C10, on the stump. *)
Lemma traversal_terminates_witness :
  well_formed Z stump /\
  (length stump <= 3)%nat /\
  terminated
    (_predict_one_binned Z Z.leb id Zcast 3 stump [SInt Z 0] blank 0) = true /\
  terminated
    (_predict_one_from_numeric_data Z Z.leb id Zcast 3 stump [SFloat Z 8]
       blank 1) = true.
Proof.
  assert (well_formed Z stump) as Hwf
    by (apply well_formedb_correct; reflexivity).
  assert (length stump <= 3)%nat as Hlen by (simpl; lia).
  split; [exact Hwf|]. split; [exact Hlen|]. split.
  - apply (traversal_terminates Z Z.leb id Zcast stump [SInt Z 0] blank 0 3
             Hwf Hlen).
  - apply (traversal_terminates Z Z.leb id Zcast stump [SFloat Z 8] blank 1 3
             Hwf Hlen).
Defined.

(** The value a [float32] keeps of an integer: the nearest integer with a
    24-bit significand, ties to the even one (magnitudes in the range of
    [float32]). *)
Definition round_float32 (z : Z) : Z :=
  let a := Z.abs z in
  let e := Z.log2 a - 23 in
  if e <=? 0 then z
  else
    let ulp := 2 ^ e in
    let q := a / ulp in
    let r := a mod ulp in
    let q' :=
      if 2 * r <? ulp then q
      else if ulp <? 2 * r then q + 1
      else if Z.even q then q else q + 1 in
    Z.sgn z * (q' * ulp).

(** Storing into an array: rounded when the element type is [float32]. *)
Definition Zcast32 (dt : np_dtype) (x : Z) : scalar Z :=
  match dt with
  | np_float32 => SFloat Z (round_float32 x)
  | _ => SFloat Z x
  end.

Example round_float32_small : round_float32 5 = 5.
Proof. reflexivity. Qed.

Example round_float32_tie : round_float32 33554434 = 33554432.
Proof. reflexivity. Qed.

Example round_float32_up : round_float32 33554435 = 33554436.
Proof. reflexivity. Qed.

(** The bin table of the stump's only feature: one edge, two bins. *)
Definition stump_table : list (list Z) := [[5%Z]].

Lemma Zleb_transitive : leb_transitive Z Z.leb.
Proof.
  intros a b c Hab Hbc. apply Z.leb_le in Hab, Hbc. apply Z.leb_le. lia.
Qed.

Lemma stump_thresholds_reconstructed :
  thresholds_reconstructed Z id Zcast32 stump_table stump.
Proof.
  intros node Hin Hleaf. unfold stump in Hin.
  repeat (apply elem_of_cons in Hin as [-> | Hin]);
    try discriminate Hleaf; [|by apply elem_of_nil in Hin].
  exists [5%Z], 5. repeat split; reflexivity.
Qed.

Lemma stump_rounding_keeps_side :
  rounding_keeps_side Z Z.leb id Zcast32 stump_table stump [SFloat Z 3].
Proof.
  intros node edges e x Hin Hleaf Htab He Hx. unfold stump in Hin.
  repeat (apply elem_of_cons in Hin as [-> | Hin]);
    try discriminate Hleaf; [|by apply elem_of_nil in Hin].
  simpl in Htab, He, Hx. injection Htab as <-. simpl in He.
  injection He as <-. injection Hx as <-. reflexivity.
Qed.

Lemma stump_same_bins :
  same_bins Z Z.leb id stump_table [SFloat Z 3] [SInt Z 0].
Proof.
  split; [reflexivity|]. intros [|f] x c; simpl; [|done].
  intros [= <-] [= <-]. exists [5%Z], 0%nat. repeat split; reflexivity.
Qed.

(** C7, on the stump: the raw value 3 lies strictly inside bin 0, and the
    edge 5 is a [float32]. *)
Lemma numeric_path_agrees_with_binned_path_witness :
  (leb_transitive Z Z.leb /\
   Forall (fun edges => ascending Z Z.leb edges = true) stump_table /\
   thresholds_reconstructed Z id Zcast32 stump_table stump /\
   rounding_keeps_side Z Z.leb id Zcast32 stump_table stump [SFloat Z 3] /\
   same_bins Z Z.leb id stump_table [SFloat Z 3] [SInt Z 0]) /\
  (forall leaf,
     reaches Z (numeric_le Z Z.leb id) stump [SFloat Z 3] 0 leaf <->
     reaches Z (binned_le Z Z.leb id) stump [SInt Z 0] 0 leaf) /\
  (forall fuel out idx,
     _predict_one_from_numeric_data Z Z.leb id Zcast32 fuel stump [SFloat Z 3]
       out idx =
     _predict_one_binned Z Z.leb id Zcast32 fuel stump [SInt Z 0] out idx).
Proof.
  assert (Forall (fun edges => ascending Z Z.leb edges = true) stump_table)
    as Hasc by (repeat constructor).
  split.
  - split; [exact Zleb_transitive|]. split; [exact Hasc|].
    split; [exact stump_thresholds_reconstructed|].
    split; [exact stump_rounding_keeps_side|exact stump_same_bins].
  - apply (numeric_path_agrees_with_binned_path Z Z.leb id Zcast32 stump_table
             stump [SFloat Z 3] [SInt Z 0] Zleb_transitive Hasc
             stump_thresholds_reconstructed stump_rounding_keeps_side
             stump_same_bins).
Defined.

(** A stump whose bin edge, 33554434, is not a [float32]: the record holds
    33554432. *)
Definition wide_table : list (list Z) := [[33554434]].

Definition wide_stump : list (node_record Z) :=
  [ mk_node Z 0 [0] 2 0 0 33554432 1 2 9 0; Zleaf 10 1; Zleaf 20 1 ].

Lemma wide_thresholds_reconstructed :
  thresholds_reconstructed Z id Zcast32 wide_table wide_stump.
Proof.
  intros node Hin Hleaf. unfold wide_stump in Hin.
  repeat (apply elem_of_cons in Hin as [-> | Hin]);
    try discriminate Hleaf; [|by apply elem_of_nil in Hin].
  exists [33554434], 33554434. repeat split; reflexivity.
Qed.

Lemma wide_same_bins :
  same_bins Z Z.leb id wide_table [SFloat Z 33554433] [SInt Z 0].
Proof.
  split; [reflexivity|]. intros [|f] x c; simpl; [|done].
  intros [= <-] [= <-]. exists [33554434], 0%nat. repeat split; reflexivity.
Qed.

(** C7 as stated fails: the raw value 33554433 lies strictly inside bin 0
    (below the edge 33554434), the thresholds are reconstructed, and yet it
    is above the stored [float32] threshold: the binned routine writes the
    left leaf's 10, the numeric routine the right leaf's 20. *)
Lemma float32_threshold_splits_a_bin :
  leb_transitive Z Z.leb /\
  Forall (fun edges => ascending Z Z.leb edges = true) wide_table /\
  thresholds_reconstructed Z id Zcast32 wide_table wide_stump /\
  same_bins Z Z.leb id wide_table [SFloat Z 33554433] [SInt Z 0] /\
  _predict_one_binned Z Z.leb id Zcast32 3 wide_stump [SInt Z 0] blank 0
  = Return (mk_ndarray Z np_float32 [[SFloat Z 10]; [SFloat Z 0]]) /\
  _predict_one_from_numeric_data Z Z.leb id Zcast32 3 wide_stump
    [SFloat Z 33554433] blank 0
  = Return (mk_ndarray Z np_float32 [[SFloat Z 20]; [SFloat Z 0]]) /\
  reaches Z (binned_le Z Z.leb id) wide_stump [SInt Z 0] 0 (Zleaf 10 1) /\
  reaches Z (numeric_le Z Z.leb id) wide_stump [SFloat Z 33554433] 0
    (Zleaf 20 1) /\
  ~ reaches Z (numeric_le Z Z.leb id) wide_stump [SFloat Z 33554433] 0
      (Zleaf 10 1).
Proof.
  split; [exact Zleb_transitive|]. split; [repeat constructor|].
  split; [exact wide_thresholds_reconstructed|].
  split; [exact wide_same_bins|].
  split; [reflexivity|]. split; [reflexivity|]. split; [|split].
  - eapply reaches_left; [reflexivity..|]. by apply reaches_leaf.
  - eapply reaches_right; [reflexivity..|]. by apply reaches_leaf.
  - intros Hr.
    destruct (reaches_walk Z _ _ _ _ _ Hr
                (mk_node Z 0 [0] 2 0 0 33554432 1 2 9 0) eq_refl)
      as [fuel Hw].
    destruct fuel as [|[|fuel]]; discriminate Hw.
Qed.

(** ** Growing the stump

    Two training samples with bin codes 0 and 1; the splitter proposes a
    split at bin 0 of feature 0 for any partition of two samples or more. *)

Definition toy_rows : list (list (scalar Z)) := [[SInt Z 0]; [SInt Z 1]].

Definition toy_splitter (samples : list nat) : option (split_info Z) :=
  if (2 <=? length samples)%nat then Some (mk_split Z 0 0 9) else None.

Definition toy_leaf_output (samples : list nat) : list Z :=
  map (fun i => 10 * (Z.of_nat i + 1)) (take 1 samples).

Definition toy_threshold (feature bin : N) : Z := 5.

Definition toy_grow (max_leaf_nodes : nat) : list (node_record Z) :=
  grow Z Z.leb id 0 toy_splitter toy_leaf_output toy_threshold toy_rows
       max_leaf_nodes None 1 1.

Example toy_grow_two_leaves :
  toy_grow 2 =
  [ mk_node Z 0 [0] 2 0 0 5 1 2 9 0; Zleaf 10 1; Zleaf 20 1 ].
Proof. reflexivity. Qed.

Example toy_grow_one_leaf :
  toy_grow 1 = [ mk_node Z 1 [10] 2 0 0 0 0 0 0 0 ].
Proof. reflexivity. Qed.

Example toy_grow_large_budget : toy_grow 8 = toy_grow 2.
Proof. reflexivity. Qed.

(** C8, on the grown stump. *)
Lemma fitted_tree_leaf_budget_witness :
  ((1 <= 2)%nat /\ Z.of_nat 2 < 2 ^ 64) /\
  get_n_leaf_nodes Z
    (fitted_tree Z Z.leb id 0 toy_splitter toy_leaf_output toy_threshold
       toy_rows 2 None 1 1 true)
  = Z.of_nat (count_leaves Z (toy_grow 2)) /\
  get_n_leaf_nodes Z
    (fitted_tree Z Z.leb id 0 toy_splitter toy_leaf_output toy_threshold
       toy_rows 2 None 1 1 true)
  <= Z.of_nat 2.
Proof.
  assert (1 <= 2)%nat as Hone by lia.
  assert (Z.of_nat 2 < 2 ^ 64) as Hmax by (simpl; lia).
  split; [split; [exact Hone|exact Hmax]|].
  apply (fitted_tree_leaf_budget Z Z.leb id 0 toy_splitter toy_leaf_output
           toy_threshold toy_rows 2 None 1 1 true Hone Hmax).
Defined.

(** ** The constructor and the module global *)

(** C5 as stated fails: constructing a predictor of width 1 in the module
    as loaded replaces the 50-wide layout. *)
Lemma init_rebinds_module_layout :
  PREDICTOR_RECORD_DTYPE Z
    (snd (TreePredictor_init Z stump true 1 (module_loaded Z zeros)))
  = make_record_dtype "1f8" /\
  PREDICTOR_RECORD_DTYPE Z
    (snd (TreePredictor_init Z stump true 1 (module_loaded Z zeros)))
  <> PREDICTOR_RECORD_DTYPE Z (module_loaded Z zeros).
Proof.
  split; [reflexivity|]. intros H. vm_compute in H. discriminate H.
Qed.

Example init_twice_leaves_last_layout :
  PREDICTOR_RECORD_DTYPE Z
    (snd (TreePredictor_init Z stump true 3
            (snd (TreePredictor_init Z stump true 12
                    (module_loaded Z zeros)))))
  = make_record_dtype "3f8".
Proof. reflexivity. Qed.

(** ** Validation *)

Example predict_binned_rejects_floats :
  predict_binned Z Z.leb id Zcast 3 stump_predictor raw_batch None
    (module_loaded Z zeros)
  = (Raise (ValueError "binned_data dtype should be uint8"),
     module_loaded Z zeros).
Proof. reflexivity. Qed.

Example predict_rejects_bin_codes :
  fst (predict Z Z.leb id Zcast 3 stump_predictor binned_batch
         (module_loaded Z zeros))
  = Raise (ValueError uint8_input_error).
Proof. reflexivity. Qed.

Example predict_rejects_missing_thresholds :
  fst (predict Z Z.leb id Zcast 3 (mk_TreePredictor Z 1 stump false) raw_batch
         (module_loaded Z zeros))
  = Raise (ValueError no_thresholds_error).
Proof. reflexivity. Qed.

(** ** The batch entry points *)

(** C2, at the stump and a batch of two binned samples.  Each child walks
    to the right leaf and stores its output (10 for the first sample, 20
    for the second) into its own copy of [out]; the array [predict_binned]
    returns is the one [np.empty] handed out, here all zeros. *)
Theorem predict_binned_returns_unwritten_buffer :
  predict_binned Z Z.leb id Zcast 3 stump_predictor binned_batch None
    (module_loaded Z zeros)
  = (Return (mk_ndarray Z np_float32 [[SFloat Z 0]; [SFloat Z 0]]),
     mk_world Z (make_record_dtype "50f8") [] zeros
       [ Return (mk_ndarray Z np_float32 [[SFloat Z 10]; [SFloat Z 0]]);
         Return (mk_ndarray Z np_float32 [[SFloat Z 0]; [SFloat Z 20]]) ])
  /\
  fst (predict Z Z.leb id Zcast 3 stump_predictor raw_batch
         (module_loaded Z zeros))
  = Return (mk_ndarray Z np_float32 [[SFloat Z 0]; [SFloat Z 0]])
  /\
  reaches Z (binned_le Z Z.leb id) stump [SInt Z 0] 0 (Zleaf 10 1)
  /\
  reaches Z (binned_le Z Z.leb id) stump [SInt Z 1] 0 (Zleaf 20 1).
Proof.
  split; [reflexivity|]. split; [reflexivity|]. split.
  - eapply reaches_left; [reflexivity..|]. by apply reaches_leaf.
  - eapply reaches_right; [reflexivity..|]. by apply reaches_leaf.
Qed.

(** C9, at the same tree and the same batch: two runs that differ only in
    what the allocator left in memory return different arrays. *)
Theorem predict_binned_output_is_allocator_memory :
  fst (predict_binned Z Z.leb id Zcast 3 stump_predictor binned_batch None
         (module_loaded Z zeros))
  = Return (mk_ndarray Z np_float32 [[SFloat Z 0]; [SFloat Z 0]])
  /\
  fst (predict_binned Z Z.leb id Zcast 3 stump_predictor binned_batch None
         (module_loaded Z ones))
  = Return (mk_ndarray Z np_float32 [[SFloat Z 1]; [SFloat Z 1]])
  /\
  fst (predict Z Z.leb id Zcast 3 stump_predictor raw_batch
         (module_loaded Z zeros))
  <> fst (predict Z Z.leb id Zcast 3 stump_predictor raw_batch
            (module_loaded Z ones)).
Proof.
  split; [reflexivity|]. split; [reflexivity|].
  intros H. vm_compute in H. discriminate H.
Qed.

(** A child that never leaves its loop keeps the parent in [join]. *)
Example predict_binned_waits_for_knot :
  forall fuel,
    fst (predict_binned Z Z.leb id Zcast fuel (mk_TreePredictor Z 1 knot true)
           (mk_ndarray Z np_uint8 [[SInt Z 0]]) None (module_loaded Z zeros))
    = OutOfFuel.
Proof.
  intros fuel. unfold predict_binned, _predict_binned, bind_M. simpl.
  unfold Process_join. simpl.
  by rewrite knot_never_returns.
Qed.

(** ** Binned input and floating point *)

Lemma binned_loop_integer_only (num : Type) (leb1 leb2 : num -> num -> bool)
    (conv1 conv2 : Z -> num) (cast : np_dtype -> num -> scalar num)
    (nodes : list (node_record num)) (sample : list (scalar num))
    (out : ndarray num) (idx : nat) :
  Forall (fun s => exists z, s = SInt num z) sample ->
  forall fuel node,
    _predict_one_binned_loop num leb1 conv1 cast fuel nodes sample out idx node
    = _predict_one_binned_loop num leb2 conv2 cast fuel nodes sample out idx
        node.
Proof.
  intros Hint. induction fuel as [|fuel IH]; intros node; simpl; [done|].
  destruct (truthy (is_leaf num node)); [done|].
  destruct (getitem sample (feature_idx num node)) as [x| |] eqn:Hx;
    [|done..].
  rewrite !bind_Return.
  apply getitem_Return, list_elem_of_lookup_2 in Hx.
  rewrite Forall_forall in Hint. destruct (Hint x Hx) as [z ->]. simpl.
  destruct (z <=? Z.of_N (bin_threshold num node));
    (destruct (getitem nodes _); [|done..]; rewrite !bind_Return; apply IH).
Qed.

(** X11. On a sample made of integer bin codes the binned routine compares
    integers only: its outcome is the same under any two floating-point
    orders and any two integer-to-float conversions. *)
Theorem binned_path_is_integer_only (num : Type)
    (leb1 leb2 : num -> num -> bool) (conv1 conv2 : Z -> num)
    (cast : np_dtype -> num -> scalar num) (fuel : nat)
    (nodes : list (node_record num)) (sample : list (scalar num))
    (out : ndarray num) (idx : nat) :
  Forall (fun s => exists z, s = SInt num z) sample ->
  _predict_one_binned num leb1 conv1 cast fuel nodes sample out idx
  = _predict_one_binned num leb2 conv2 cast fuel nodes sample out idx.
Proof.
  intros Hint. unfold _predict_one_binned.
  destruct (getitem nodes 0%N); [|done..].
  rewrite !bind_Return. by apply binned_loop_integer_only.
Qed.

(** ** The further properties on the stump *)

Lemma stump_well_formed : well_formed Z stump.
Proof. apply well_formedb_correct. reflexivity. Qed.

Lemma stump_covers_features (x : scalar Z) : covers_features Z stump [x].
Proof.
  intros node Hin Hleaf. unfold stump in Hin.
  repeat (apply elem_of_cons in Hin as [-> | Hin]);
    try discriminate Hleaf; [simpl; lia|by apply elem_of_nil in Hin].
Qed.

Lemma stump_leaf_width : leaf_width Z stump 1.
Proof.
  intros node Hin Hleaf. unfold stump in Hin.
  repeat (apply elem_of_cons in Hin as [-> | Hin]);
    try discriminate Hleaf; try reflexivity. by apply elem_of_nil in Hin.
Qed.

(** X2, on the stump: the sample with bin code 0 ends at the left leaf. *)
Lemma predict_one_total_correctness_witness :
  (exists leaf out',
     reaches Z (binned_le Z Z.leb id) stump [SInt Z 0] 0 leaf /\
     _predict_one_binned Z Z.leb id Zcast 3 stump [SInt Z 0] blank 0
     = Return out' /\
     dtype Z out' = dtype Z blank /\
     rows Z out' !! 0%nat = Some (map (Zcast (dtype Z blank)) (value Z leaf)) /\
     forall j, j <> 0%nat -> rows Z out' !! j = rows Z blank !! j) /\
  (exists leaf out',
     reaches Z (numeric_le Z Z.leb id) stump [SInt Z 0] 0 leaf /\
     _predict_one_from_numeric_data Z Z.leb id Zcast 3 stump [SInt Z 0] blank 0
     = Return out' /\
     dtype Z out' = dtype Z blank /\
     rows Z out' !! 0%nat = Some (map (Zcast (dtype Z blank)) (value Z leaf)) /\
     forall j, j <> 0%nat -> rows Z out' !! j = rows Z blank !! j).
Proof.
  apply (predict_one_total_correctness Z Z.leb id Zcast stump [SInt Z 0]
           blank 0 3 [SFloat Z 0]).
  - exact stump_well_formed.
  - exact (stump_covers_features (SInt Z 0)).
  - exact stump_leaf_width.
  - reflexivity.
  - simpl. lia.
Defined.

(** X3, on the stump: the second row of [blank] is as it was. *)
Lemma predict_one_writes_one_row_witness :
  dtype Z (mk_ndarray Z np_float32 [[SFloat Z 10]; [SFloat Z 0]])
  = dtype Z blank /\
  length (rows Z (mk_ndarray Z np_float32 [[SFloat Z 10]; [SFloat Z 0]]))
  = length (rows Z blank) /\
  (forall j, j <> 0%nat ->
     rows Z (mk_ndarray Z np_float32 [[SFloat Z 10]; [SFloat Z 0]]) !! j
     = rows Z blank !! j) /\
  (forall row row',
     rows Z blank !! 0%nat = Some row ->
     rows Z (mk_ndarray Z np_float32 [[SFloat Z 10]; [SFloat Z 0]]) !! 0%nat
     = Some row' ->
     length row' = length row).
Proof.
  apply (predict_one_writes_one_row Z Z.leb id Zcast 2 stump [SInt Z 0]
           blank 0).
  left. reflexivity.
Defined.

(** A single leaf with two outputs, and an output array three wide. *)
Definition two_outputs : list (node_record Z) :=
  [ mk_node Z 1 [1; 2] 1 0 0 0 0 0 0 0 ].

Definition three_wide : ndarray Z :=
  mk_ndarray Z np_float32 [[SFloat Z 0; SFloat Z 0; SFloat Z 0]].

Example two_into_three :
  _predict_one_binned Z Z.leb id Zcast 1 two_outputs [] three_wide 0
  = Raise (ValueError
      "could not broadcast input array from shape (2,) into shape (3,)").
Proof. reflexivity. Qed.

(** X4, on a leaf output that does not fit the row. *)
Lemma predict_one_exceptions_witness :
  ValueError
    "could not broadcast input array from shape (2,) into shape (3,)"
  = IndexError \/
  exists leaf row,
    leaf ∈ two_outputs /\ truthy (is_leaf Z leaf) = true /\
    rows Z three_wide !! 0%nat = Some row /\
    length (value Z leaf) <> length row /\
    length (value Z leaf) <> 1%nat /\
    ValueError
      "could not broadcast input array from shape (2,) into shape (3,)"
    = ValueError (broadcast_error (length (value Z leaf)) (length row)).
Proof.
  apply (predict_one_exceptions Z Z.leb id Zcast 1 two_outputs [] three_wide
           0).
  left. reflexivity.
Defined.

(** The stump with other thresholds, counts, gains and depths. *)
Definition stump_other_thresholds : list (node_record Z) :=
  [ mk_node Z 0 [0] 7 0 0 (-3) 1 2 1 4;
    mk_node Z 1 [10] 0 0 0 8 0 0 2 5;
    mk_node Z 1 [20] 9 0 0 1 0 0 3 6 ].

(** The stump with other bin thresholds, counts, gains and depths. *)
Definition stump_other_bins : list (node_record Z) :=
  [ mk_node Z 0 [0] 7 0 200 5 1 2 1 4;
    mk_node Z 1 [10] 0 0 3 0 0 0 2 5;
    mk_node Z 1 [20] 9 0 4 0 0 0 3 6 ].

(** X5, on the stump. *)
Lemma binned_path_ignores_other_fields_witness :
  _predict_one_binned Z Z.leb id Zcast 3 stump [SInt Z 1] blank 1
  = _predict_one_binned Z Z.leb id Zcast 3 stump_other_thresholds [SInt Z 1]
      blank 1.
Proof.
  apply (binned_path_ignores_other_fields Z Z.leb id Zcast stump
           stump_other_thresholds 3 [SInt Z 1] blank 1).
  repeat constructor.
Defined.

(** X6, on the stump. *)
Lemma numeric_path_ignores_other_fields_witness :
  _predict_one_from_numeric_data Z Z.leb id Zcast 3 stump [SFloat Z 8] blank 1
  = _predict_one_from_numeric_data Z Z.leb id Zcast 3 stump_other_bins
      [SFloat Z 8] blank 1.
Proof.
  apply (numeric_path_ignores_other_fields Z Z.leb id Zcast stump
           stump_other_bins 3 [SFloat Z 8] blank 1).
  repeat constructor.
Defined.

Example stump_max_depth : get_max_depth Z stump_predictor = Return 1.
Proof. reflexivity. Qed.

Example empty_tree_max_depth :
  get_max_depth Z (mk_TreePredictor Z 1 [] true)
  = Raise (ValueError empty_max_error).
Proof. reflexivity. Qed.

Example flag_two_counts_twice :
  get_n_leaf_nodes Z (mk_TreePredictor Z 1 [mk_node Z 2 [10] 1 0 0 0 0 0 0 0] true)
  = 2.
Proof. reflexivity. Qed.

(** X8, on the stump and two raw samples. *)
Lemma predict_prints_progress_witness :
  exists w',
    predict Z Z.leb id Zcast 3 stump_predictor raw_batch (module_loaded Z zeros)
    = (Return (fresh_array Z (module_loaded Z zeros) 2 1 np_float32), w') /\
    stdout Z w' =
    stdout Z (module_loaded Z zeros)
    ++ "multiprocessing" :: ["0"; "1"] ++ ["0"; "1"] ++ ["0"; "1"] /\
    PREDICTOR_RECORD_DTYPE Z w'
    = PREDICTOR_RECORD_DTYPE Z (module_loaded Z zeros) /\
    length (children Z w')
    = (length (children Z (module_loaded Z zeros)) + 2)%nat.
Proof.
  apply (predict_prints_progress Z Z.leb id Zcast 3 stump_predictor raw_batch
           (module_loaded Z zeros)).
  - reflexivity.
  - discriminate.
  - exact stump_well_formed.
  - simpl. lia.
Defined.

(** X9, on the stump, two binned samples and the caller's [blank]. *)
Lemma predict_binned_with_out_witness :
  let r := predict_binned Z Z.leb id Zcast 3 stump_predictor binned_batch
             (Some blank) (module_loaded Z zeros) in
  (fst r = Return blank <->
   forall i row,
     rows Z binned_batch !! i = Some row ->
     terminated (_predict_one_binned Z Z.leb id Zcast 3 stump row blank i)
     = true) /\
  (fst r = Return blank \/ fst r = OutOfFuel) /\
  PREDICTOR_RECORD_DTYPE Z (snd r)
  = PREDICTOR_RECORD_DTYPE Z (module_loaded Z zeros) /\
  stdout Z (snd r) = stdout Z (module_loaded Z zeros) /\
  length (children Z (snd r))
  = (length (children Z (module_loaded Z zeros))
     + length (rows Z binned_batch))%nat.
Proof.
  apply (predict_binned_with_out Z Z.leb id Zcast 3 stump_predictor
           binned_batch blank (module_loaded Z zeros)).
  reflexivity.
Defined.

(** X10, on the stump. *)
Lemma get_n_leaf_nodes_vs_leaves_witness :
  Z.of_nat (count_leaves Z (nodes Z stump_predictor))
  <= get_n_leaf_nodes Z stump_predictor /\
  (get_n_leaf_nodes Z stump_predictor
   = Z.of_nat (count_leaves Z (nodes Z stump_predictor)) <->
   Forall (fun n => (is_leaf Z n <= 1)%N) (nodes Z stump_predictor)).
Proof.
  apply (get_n_leaf_nodes_vs_leaves Z stump_predictor).
  - repeat constructor; simpl; lia.
  - simpl. lia.
Defined.

(** X11, on the stump: an order under which nothing is [<=] anything. *)
Lemma binned_path_is_integer_only_witness :
  _predict_one_binned Z Z.leb id Zcast 3 stump [SInt Z 1] blank 1
  = _predict_one_binned Z (fun _ _ => false) (fun _ => 0) Zcast 3 stump
      [SInt Z 1] blank 1.
Proof.
  apply (binned_path_is_integer_only Z Z.leb (fun _ _ => false) id
           (fun _ => 0) Zcast 3 stump [SInt Z 1] blank 1).
  repeat constructor. by exists 1.
Defined.
